(** * Walk-trace recorder: the App component of src/App.tsx

    A shallow embedding of the React component [App]: its state cells
    ([useState]), its refs ([useRef]), the handlers it registers
    (keydown, mousemove, resize, the countdown timeout, the 60 Hz
    interval) and the CSV export.

    Numbers.  In the transition system a JavaScript [number] is
    modelled by an exact rational ([Q]); arithmetic and comparisons are
    the exact ones, equality of numbers is [Qeq] ([==]).  [NaN], the
    infinities and the rounding of binary64 arithmetic are outside
    that model: a division by zero gives 0 there, where binary64 gives
    an infinity or [NaN].  The results of [Math.round] are integers and
    are kept in [Z].  The statements proved over the transition system
    are about what is sampled, drawn, timed and saved, and when.

    Statements about the magnitude of a computed number (how close a
    mapped corner is to the bounds, how well the canvas fits the
    window) are made over rounded arithmetic instead: every operation
    of the source is followed by a rounding [fl], about which only its
    accuracy at the results at hand is assumed (section "Rounded
    arithmetic").  The export is stated for any representation of
    numbers and any conversion of a number to text (section "The
    export, whatever the numbers"). *)

From Stdlib Require Import ZArith QArith Qround Qabs Qminmax.
From Stdlib Require Import List String Ascii Bool Lia Lqa Sorted.
Import ListNotations.

Local Open Scope Q_scope.

(** ** Built-ins of the language *)

(** [Math.round]: the nearest integer, a tie going up. *)
Definition Math_round (q : Q) : Z := Qfloor (q + (1 # 2)).

(** [Math.min] on two numbers. *)
Definition Math_min (a b : Q) : Q := if Qle_bool a b then a else b.

(** The integer [n] that [q.toFixed(2)] prints, [q] being the exact
    value of the number: the sign is set aside, and [n] is the integer
    closest to [|q| * 100], the larger one at a tie.  The source applies
    it to the binary64 result of its arithmetic, the transition system
    to the exact result; the two can differ when the exact result is a
    tie ([43 * 0.025]). *)
Definition toFixed2_digits (q : Q) : Z := Qfloor (Qabs q * 100 + (1 # 2)).

(** Whether [q.toFixed(2)] starts with a minus sign. *)
Definition toFixed2_negative (q : Q) : bool := negb (Qle_bool 0 q).

(** [parseFloat(q.toFixed(2))]: the number the printed text reads back
    as, [n / 100] with the sign put back; binary64 keeps the number
    nearest to it.  Magnitudes of 10^21 and more, which [toFixed]
    prints with an exponent, and [NaN] are not covered. *)
Definition parseFloat_toFixed2 (q : Q) : Q :=
  let n := toFixed2_digits q in
  (if toFixed2_negative q then - n else n)%Z # 100.

(** *** Printing numbers *)

Definition digit_char (d : Z) : ascii :=
  ascii_of_nat (48 + Z.to_nat d).

(** The decimal digits of a natural number, most significant first. *)
Fixpoint digits_fuel (fuel : nat) (n : Z) (acc : string) : string :=
  match fuel with
  | O => acc
  | S fuel' =>
      let acc' := String (digit_char (n mod 10)) acc in
      if (n / 10 =? 0)%Z then acc' else digits_fuel fuel' (n / 10)%Z acc'
  end.

Definition digits (n : Z) : string :=
  digits_fuel (S (Z.to_nat (Z.log2 n))) n EmptyString.

(** The fractional digits of [r / d] for [0 <= r < d], printed until
    the expansion ends; binary64 carries no more than 17 significant
    digits, which bounds the loop. *)
Fixpoint frac_digits (fuel : nat) (r d : Z) : string :=
  match fuel with
  | O => EmptyString
  | S fuel' =>
      if (r =? 0)%Z then EmptyString
      else String (digit_char (10 * r / d))
                  (frac_digits fuel' ((10 * r) mod d)%Z d)
  end.

(** [String(q)] and a template literal's [${q}]: the shortest decimal
    text of the number.  An integer prints without a point, a decimal
    fraction prints its digits and no trailing zero, zero never prints
    a sign.  This is the text the language writes for the numbers the
    sampler stores in ordinary use: decimal fractions of at most two
    digits with a magnitude from 10^-6 up to 10^21 for which binary64
    keeps the nearest number.  The exponent notation of greater and
    smaller magnitudes, [NaN], [Infinity] and the digits of numbers
    that are not decimal fractions are not modelled; the statements
    about the exported text use of this conversion only that it writes
    neither a comma nor a line break, and what it writes for the
    numbers of the scenarios. *)
Definition Number_toString (q : Q) : string :=
  let n := Z.abs (Qnum q) in
  let d := Zpos (Qden q) in
  let ip := (n / d)%Z in
  let fp := frac_digits 17 (n mod d)%Z d in
  let sign := if (Qnum q <? 0)%Z then "-"%string else EmptyString in
  let body :=
    match fp with
    | EmptyString => digits ip
    | _ => (digits ip ++ "." ++ fp)%string
    end in
  (sign ++ body)%string.

(** [q.toFixed(2)], for magnitudes below 10^21: sign, integer part, a
    point and exactly two digits. *)
Definition toFixed2 (q : Q) : string :=
  let n := toFixed2_digits q in
  let sign := if toFixed2_negative q then "-"%string else EmptyString in
  (sign ++ digits (n / 100) ++ "."
        ++ String (digit_char ((n / 10) mod 10))
             (String (digit_char (n mod 10)) EmptyString))%string.

(** ** Data *)

(** [interface Point { time; x; y }]: one sample of the trajectory. *)
Module Point.
Record t : Type := mk { time : Z; x : Q; y : Q }.
End Point.

(** The [{ x; y }] objects held by [lastPointRef] and
    [mousePositionRef]. *)
Module XY.
Record t : Type := mk { x : Q; y : Q }.
End XY.

(** What the component reads of an [HTMLImageElement]. *)
Module Image.
Record t : Type := mk { width : Q; height : Q }.
End Image.

(** What the component reads of [canvas.getBoundingClientRect()]. *)
Module DOMRect.
Record t : Type :=
  mk { left : Q; top : Q; right : Q; bottom : Q; width : Q; height : Q }.
End DOMRect.

(** A red 2px segment stroked on the canvas, from one raw offset to the
    next. *)
Definition Stroke : Type := (XY.t * XY.t)%type.

(** A file handed to [saveAs]: its name and its text. *)
Definition SavedFile : Type := (string * string)%type.

(** The component: the [useState] cells and the refs under their source
    names, then what the component has done to its surroundings: the
    countdown callbacks still pending (each with the [image] its
    closure captured), the segments stroked on the canvas since it was
    last redrawn, and the files saved. *)
Record State : Type := mkState {
  image : option Image.t;
  maxX : Q;
  maxY : Q;
  recording : bool;
  data : list Point.t;
  startTime : option Q;
  elapsedTime : Q;
  waiting : bool;
  canvasScale : Q;
  lastPointRef : option XY.t;
  mousePositionRef : option XY.t;
  timeouts : list (option Image.t);
  strokes : list Stroke;
  saved : list SavedFile
}.

(** The first render. *)
Definition init : State :=
  {| image := None; maxX := 10; maxY := 10; recording := false;
     data := []; startTime := None; elapsedTime := 0; waiting := false;
     canvasScale := 1; lastPointRef := None; mousePositionRef := None;
     timeouts := []; strokes := []; saved := [] |}.

(** [const scaleX = useMemo(...)], [const scaleY = useMemo(...)], in
    exact arithmetic.  When the divisor is zero (a window of size 0)
    the exact quotient is 0 here, where binary64 gives an infinity or
    [NaN]; [scaleFactorFl] below is the same expression with its
    roundings, for a divisor that is not zero. *)
Definition scaleX (s : State) : Q :=
  match image s with
  | Some img => maxX s / (Image.width img * canvasScale s)
  | None => 1
  end.

Definition scaleY (s : State) : Q :=
  match image s with
  | Some img => maxY s / (Image.height img * canvasScale s)
  | None => 1
  end.

(** ** Coordinate mapper (the body of the containment branch) *)

(** [rawX = mouseX - rect.left], [rawY = mouseY - rect.top]. *)
Definition rawOffset (mousePos : XY.t) (rect : DOMRect.t) : XY.t :=
  XY.mk (XY.x mousePos - DOMRect.left rect) (XY.y mousePos - DOMRect.top rect).

(** [x = rawX * scaleX], [y = (rect.height - rawY) * scaleY]. *)
Definition coordinateMapper (rectHeight : Q) (raw : XY.t) (sx sy : Q) : XY.t :=
  XY.mk (XY.x raw * sx) ((rectHeight - XY.y raw) * sy).

(** The containment test of the interval callback. *)
Definition insideRect (mousePos : XY.t) (rect : DOMRect.t) : bool :=
  Qle_bool (DOMRect.left rect) (XY.x mousePos)
  && Qle_bool (XY.x mousePos) (DOMRect.right rect)
  && Qle_bool (DOMRect.top rect) (XY.y mousePos)
  && Qle_bool (XY.y mousePos) (DOMRect.bottom rect).

(** ** Export *)

Definition newline : string := String (ascii_of_nat 10) EmptyString.

(** [Array.prototype.join]. *)
Fixpoint join (sep : string) (parts : list string) : string :=
  match parts with
  | [] => EmptyString
  | [p] => p
  | p :: rest => (p ++ sep ++ join sep rest)%string
  end.

(** [String] of an integer-valued number. *)
Definition Integer_toString (n : Z) : string :=
  ((if (n <? 0)%Z then "-" else "") ++ digits (Z.abs n))%string.

(** The template literal [`${d.time},${d.x},${d.y}`]. *)
Definition csvRow (d : Point.t) : string :=
  (Integer_toString (Point.time d) ++ ","
     ++ Number_toString (Point.x d) ++ ","
     ++ Number_toString (Point.y d))%string.

Definition csvHeader : string := "time,x,y".

(** [downloadCSV]: [None] when it returns before building anything,
    otherwise the text given to [saveAs] under the name
    [walk_trace.csv]. *)
Definition downloadCSV (d : list Point.t) : option string :=
  match d with
  | [] => None
  | _ => Some (join newline (csvHeader :: map csvRow d))
  end.

Definition fileName : string := "walk_trace.csv".

Definition saveAs (payload : option string) (files : list SavedFile)
  : list SavedFile :=
  match payload with
  | None => files
  | Some csv => files ++ [(fileName, csv)]
  end.

(** ** Handlers *)

(** Field updates, one per cell a handler writes. *)
Definition set_image (v : option Image.t) (s : State) : State :=
  mkState v (maxX s) (maxY s) (recording s) (data s) (startTime s)
    (elapsedTime s) (waiting s) (canvasScale s) (lastPointRef s)
    (mousePositionRef s) (timeouts s) (strokes s) (saved s).
Definition setMaxX (v : Q) (s : State) : State :=
  mkState (image s) v (maxY s) (recording s) (data s) (startTime s)
    (elapsedTime s) (waiting s) (canvasScale s) (lastPointRef s)
    (mousePositionRef s) (timeouts s) (strokes s) (saved s).
Definition setMaxY (v : Q) (s : State) : State :=
  mkState (image s) (maxX s) v (recording s) (data s) (startTime s)
    (elapsedTime s) (waiting s) (canvasScale s) (lastPointRef s)
    (mousePositionRef s) (timeouts s) (strokes s) (saved s).
Definition setRecording (v : bool) (s : State) : State :=
  mkState (image s) (maxX s) (maxY s) v (data s) (startTime s)
    (elapsedTime s) (waiting s) (canvasScale s) (lastPointRef s)
    (mousePositionRef s) (timeouts s) (strokes s) (saved s).
Definition setData (v : list Point.t) (s : State) : State :=
  mkState (image s) (maxX s) (maxY s) (recording s) v (startTime s)
    (elapsedTime s) (waiting s) (canvasScale s) (lastPointRef s)
    (mousePositionRef s) (timeouts s) (strokes s) (saved s).
Definition setStartTime (v : option Q) (s : State) : State :=
  mkState (image s) (maxX s) (maxY s) (recording s) (data s) v
    (elapsedTime s) (waiting s) (canvasScale s) (lastPointRef s)
    (mousePositionRef s) (timeouts s) (strokes s) (saved s).
Definition setElapsedTime (v : Q) (s : State) : State :=
  mkState (image s) (maxX s) (maxY s) (recording s) (data s) (startTime s)
    v (waiting s) (canvasScale s) (lastPointRef s)
    (mousePositionRef s) (timeouts s) (strokes s) (saved s).
Definition setWaiting (v : bool) (s : State) : State :=
  mkState (image s) (maxX s) (maxY s) (recording s) (data s) (startTime s)
    (elapsedTime s) v (canvasScale s) (lastPointRef s)
    (mousePositionRef s) (timeouts s) (strokes s) (saved s).
Definition setCanvasScale (v : Q) (s : State) : State :=
  mkState (image s) (maxX s) (maxY s) (recording s) (data s) (startTime s)
    (elapsedTime s) (waiting s) v (lastPointRef s)
    (mousePositionRef s) (timeouts s) (strokes s) (saved s).
Definition set_lastPointRef (v : option XY.t) (s : State) : State :=
  mkState (image s) (maxX s) (maxY s) (recording s) (data s) (startTime s)
    (elapsedTime s) (waiting s) (canvasScale s) v
    (mousePositionRef s) (timeouts s) (strokes s) (saved s).
Definition set_mousePositionRef (v : option XY.t) (s : State) : State :=
  mkState (image s) (maxX s) (maxY s) (recording s) (data s) (startTime s)
    (elapsedTime s) (waiting s) (canvasScale s) (lastPointRef s)
    v (timeouts s) (strokes s) (saved s).
Definition set_timeouts (v : list (option Image.t)) (s : State) : State :=
  mkState (image s) (maxX s) (maxY s) (recording s) (data s) (startTime s)
    (elapsedTime s) (waiting s) (canvasScale s) (lastPointRef s)
    (mousePositionRef s) v (strokes s) (saved s).
Definition set_strokes (v : list Stroke) (s : State) : State :=
  mkState (image s) (maxX s) (maxY s) (recording s) (data s) (startTime s)
    (elapsedTime s) (waiting s) (canvasScale s) (lastPointRef s)
    (mousePositionRef s) (timeouts s) v (saved s).
Definition set_saved (v : list SavedFile) (s : State) : State :=
  mkState (image s) (maxX s) (maxY s) (recording s) (data s) (startTime s)
    (elapsedTime s) (waiting s) (canvasScale s) (lastPointRef s)
    (mousePositionRef s) (timeouts s) (strokes s) v.

(** [ctx.clearRect(...); ctx.drawImage(image, ...)]: the canvas shows
    the bare image again. *)
Definition redraw (s : State) : State := set_strokes [] s.

(** [updateCanvasSize], run with the window's inner size.  The canvas
    element is mounted for the whole life of the component, so
    [canvasRef.current] is never null here.  The pixel size given to
    the canvas is not kept: the sampler reads the bounding rectangle,
    which every tick receives afresh. *)
Definition updateCanvasSize (innerWidth innerHeight : Q) (s : State) : State :=
  match image s with
  | None => s
  | Some img =>
      let maxWidth := innerWidth * (9 # 10) in
      let maxHeight := innerHeight * (6 # 10) in
      let scale :=
        Math_min (maxWidth / Image.width img) (maxHeight / Image.height img) in
      redraw (setCanvasScale scale s)
  end.

(** The callback given to [setTimeout] in [handleKeyDown]; [img] is the
    [image] its closure captured, [now] the reading of
    [performance.now()]. *)
Definition countdownElapsed (img : option Image.t) (now : Q) (s : State)
  : State :=
  let s1 := setData [] s in
  let s2 := setElapsedTime 0 s1 in
  let s3 := set_lastPointRef None s2 in
  let s4 := setStartTime (Some now) s3 in
  let s5 := match img with Some _ => redraw s4 | None => s4 end in
  let s6 := setRecording true s5 in
  setWaiting false s6.

(** [handleKeyDown].  [e.preventDefault()] touches nothing the component
    keeps and is left out. *)
Definition handleKeyDown (code : string) (s : State) : State :=
  if String.eqb code "Space" then
    if negb (recording s) && negb (waiting s) then
      set_timeouts (timeouts s ++ [image s]) (setWaiting true s)
    else if recording s then
      let s1 := setRecording false s in
      set_saved (saveAs (downloadCSV (data s)) (saved s)) s1
    else s
  else s.

(** [handleMouseMove]. *)
Definition handleMouseMove (clientX clientY : Q) (s : State) : State :=
  set_mousePositionRef (Some (XY.mk clientX clientY)) s.

(** A number is truthy when it is not zero. *)
Definition truthy (q : Q) : bool := negb (Qeq_bool q 0).

(** The interval of the sampling effect is registered exactly when the
    effect did not return early: [recording] holds and [startTime] is
    truthy; it then carries that [startTime]. *)
Definition samplerStart (s : State) : option Q :=
  if recording s then
    match startTime s with
    | Some st => if truthy st then Some st else None
    | None => None
    end
  else None.

(** The body of the [setInterval] callback: [rect] is what
    [canvas.getBoundingClientRect()] returns, [now1] the reading of
    [performance.now()] inside the containment branch, [now2] the one
    of the last line. *)
Definition sample (st : Q) (rect : DOMRect.t) (now1 : Q) (mousePos : XY.t)
  (s : State) : State :=
  let raw := rawOffset mousePos rect in
  let p := coordinateMapper (DOMRect.height rect) raw (scaleX s) (scaleY s) in
  let time := Math_round (now1 - st) in
  let updated :=
    data s ++ [Point.mk time (parseFloat_toFixed2 (XY.x p))
                             (parseFloat_toFixed2 (XY.y p))] in
  let s1 :=
    match lastPointRef s with
    | Some last => set_strokes (strokes s ++ [(last, raw)]) s
    | None => s
    end in
  setData updated (set_lastPointRef (Some raw) s1).

Definition intervalTick (rect : DOMRect.t) (now1 now2 : Q) (s : State)
  : State :=
  match samplerStart s with
  | None => s
  | Some st =>
      match mousePositionRef s with
      | None => s
      | Some mousePos =>
          let s1 :=
            if insideRect mousePos rect then sample st rect now1 mousePos s
            else s in
          setElapsedTime ((now2 - st) / 1000) s1
      end
  end.

(** [img.onload] of [handleImageUpload], followed by the effect that
    runs [updateCanvasSize] for the new image. *)
Definition imageLoaded (img : Image.t) (innerWidth innerHeight : Q)
  (s : State) : State :=
  let s1 := set_image (Some img) s in
  let s2 := setMaxX (Image.width img) s1 in
  let s3 := setMaxY (Image.height img) s2 in
  updateCanvasSize innerWidth innerHeight s3.

(** ** The component as a transition system *)

Inductive Event : Type :=
| KeyDown (code : string)
| CountdownElapsed (now : Q)
| MouseMove (clientX clientY : Q)
| IntervalTick (rect : DOMRect.t) (now1 now2 : Q)
| ImageLoaded (img : Image.t) (innerWidth innerHeight : Q)
| Resize (innerWidth innerHeight : Q)
| ChangeMaxX (v : Q)
| ChangeMaxY (v : Q).

Definition step (s : State) (e : Event) : State :=
  match e with
  | KeyDown code => handleKeyDown code s
  | CountdownElapsed now =>
      match timeouts s with
      | [] => s
      | img :: rest => countdownElapsed img now (set_timeouts rest s)
      end
  | MouseMove cx cy => handleMouseMove cx cy s
  | IntervalTick rect now1 now2 => intervalTick rect now1 now2 s
  | ImageLoaded img w h => imageLoaded img w h s
  | Resize w h => updateCanvasSize w h s
  | ChangeMaxX v => setMaxX v s
  | ChangeMaxY v => setMaxY v s
  end.

Definition run (s : State) (evs : list Event) : State :=
  fold_left step evs s.

Inductive reachable : State -> Prop :=
| reachable_init : reachable init
| reachable_step : forall s e, reachable s -> reachable (step s e).

(** The three states of the recording life cycle, read off the two
    flags. *)
Inductive Phase : Type := Idle | CountingDown | Recording.

Definition phase (s : State) : Phase :=
  if waiting s then CountingDown
  else if recording s then Recording
  else Idle.

(** ** Vocabulary of the statements *)

(** *** The life cycle *)

(** What the two flags and the pending callbacks have in common in
    every state the component can be in: while [waiting] nothing is
    being recorded and exactly one countdown is pending; otherwise no
    countdown is pending. *)
Definition lifecycleInv (s : State) : Prop :=
  (waiting s = true ->
   recording s = false /\ exists img, timeouts s = [img])
  /\ (waiting s = false -> timeouts s = []).

(** *** Sessions and the clock *)

(** The [time] column of a sample sequence. *)
Definition times (d : list Point.t) : list Z := map Point.time d.

(** Events that may happen while a recording runs without ending it:
    everything but the space key and the countdown callback. *)
Definition sessionEvent (e : Event) : bool :=
  match e with
  | KeyDown code => negb (String.eqb code "Space")
  | CountdownElapsed _ => false
  | _ => true
  end.

(** [performance.now()] never goes back: along a list of events the
    readings, in the order the handlers take them, do not decrease,
    starting from the reading [t]. *)
Fixpoint clockMonotone (t : Q) (evs : list Event) : Prop :=
  match evs with
  | [] => True
  | CountdownElapsed now :: rest => t <= now /\ clockMonotone now rest
  | IntervalTick _ now1 now2 :: rest =>
      t <= now1 /\ now1 <= now2 /\ clockMonotone now2 rest
  | _ :: rest => clockMonotone t rest
  end.

(** The last clock reading taken once the handler of [e] has run, [t]
    being the last one taken before. *)
Definition clockAfter (t : Q) (e : Event) : Q :=
  match e with
  | CountdownElapsed now => now
  | IntervalTick _ _ now2 => now2
  | _ => t
  end.

(** The number of interval ticks in a list of events. *)
Fixpoint countTicks (evs : list Event) : nat :=
  match evs with
  | [] => O
  | IntervalTick _ _ _ :: rest => S (countTicks rest)
  | _ :: rest => countTicks rest
  end.

(** A sample taken by one of the ticks of [evs] in a session started at
    [st]: its time stamp is the rounded number of milliseconds between
    [st] and the tick's clock reading, which is not before [st]. *)
Definition stampedBy (st : Q) (evs : list Event) (p : Point.t) : Prop :=
  exists rect now1 now2,
    In (IntervalTick rect now1 now2) evs /\ st <= now1
    /\ Point.time p = Math_round (now1 - st).

(** *** The rectangle *)

(** The pointer lies outside the rectangle in some axis. *)
Definition outsideRect (mousePos : XY.t) (rect : DOMRect.t) : Prop :=
  XY.x mousePos < DOMRect.left rect \/ DOMRect.right rect < XY.x mousePos
  \/ XY.y mousePos < DOMRect.top rect \/ DOMRect.bottom rect < XY.y mousePos.

(** A [DOMRect] has its left edge no further right than its right edge
    and its top edge no lower than its bottom edge. *)
Definition wellFormedRect (rect : DOMRect.t) : Prop :=
  DOMRect.left rect <= DOMRect.right rect
  /\ DOMRect.top rect <= DOMRect.bottom rect.

(** The pointer lies exactly on an edge of the rectangle. *)
Definition onEdge (mousePos : XY.t) (rect : DOMRect.t) : Prop :=
  ((XY.x mousePos == DOMRect.left rect \/ XY.x mousePos == DOMRect.right rect)
   /\ DOMRect.top rect <= XY.y mousePos <= DOMRect.bottom rect)
  \/ ((XY.y mousePos == DOMRect.top rect \/ XY.y mousePos == DOMRect.bottom rect)
      /\ DOMRect.left rect <= XY.x mousePos <= DOMRect.right rect).

(** *** Corners and tolerance *)

(** Raw offsets of two corners of a surface [W] wide and [H] high:
    rows are counted from the top, so the bottom-left corner is
    [(0, H)] and the top-right one [(W, 0)]. *)
Definition bottomLeft (W H : Q) : XY.t := XY.mk 0 H.
Definition topRight (W H : Q) : XY.t := XY.mk W 0.

(** Two numbers agree within the tolerance. *)
Definition within (tol a b : Q) : Prop := Qabs (a - b) <= tol.

(** The point is [(a, b)], up to the tolerance in each coordinate. *)
Definition near (tol : Q) (p : XY.t) (a b : Q) : Prop :=
  within tol (XY.x p) a /\ within tol (XY.y p) b.

(** The tolerance of rounding to two decimals. *)
Definition roundingTolerance : Q := 1 # 200.

(** *** Texts *)

(** The text cut at its line breaks. *)
Fixpoint splitLines (s : string) : list string :=
  match s with
  | EmptyString => [EmptyString]
  | String c rest =>
      if Ascii.eqb c (ascii_of_nat 10) then EmptyString :: splitLines rest
      else
        match splitLines rest with
        | [] => [String c EmptyString]
        | l :: ls => String c l :: ls
        end
  end.

(** Every character of the text passes the test. *)
Fixpoint allChars (p : ascii -> bool) (s : string) : bool :=
  match s with
  | EmptyString => true
  | String c rest => p c && allChars p rest
  end.

Definition isDigit (c : ascii) : bool :=
  let n := nat_of_ascii c in (48 <=? n)%nat && (n <=? 57)%nat.

(** The characters of a plain base-10 numeral: digits, a minus sign, a
    decimal point; no comma, space, exponent or line break. *)
Definition decimalChar (c : ascii) : bool :=
  isDigit c || Ascii.eqb c "-" || Ascii.eqb c ".".

(** The characters of a row: those of its numerals and the comma that
    separates them. *)
Definition rowChar (c : ascii) : bool := decimalChar c || Ascii.eqb c ",".

(** The character is not a line break. *)
Definition notNewline (c : ascii) : bool :=
  negb (Ascii.eqb c (ascii_of_nat 10)).

(** The row the export would write if [x] and [y] were printed in
    two-decimal fixed notation, as [toFixed(2)] prints them. *)
Definition fixedRow (d : Point.t) : string :=
  (Integer_toString (Point.time d) ++ ","
     ++ toFixed2 (Point.x d) ++ ","
     ++ toFixed2 (Point.y d))%string.

(** ** Scenarios *)

(** A canvas shown at the origin of the viewport, 100 by 100. *)
Definition rect100 : DOMRect.t := DOMRect.mk 0 0 100 100 100 100.

(** Space pressed on the first render: the countdown runs. *)
Definition countingDown0 : State := step init (KeyDown "Space").

(** The countdown elapsed at clock reading 1000: recording runs, the
    pointer has never moved. *)
Definition recording0 : State := step countingDown0 (CountdownElapsed 1000).

(** Recording without an image, the pointer seen far off the canvas. *)
Definition recordingFarAway : State := step recording0 (MouseMove 500 500).

(** Recording without an image, the pointer seen on the right edge of
    [rect100]. *)
Definition recordingOnEdge : State := step recording0 (MouseMove 100 40).

(** A 100 by 100 image loaded in a window that shows it at scale 1,
    logical bounds set to 10 by 10, space pressed. *)
Definition countingDownImage : State :=
  run init [ImageLoaded (Image.mk 100 100) (1000 # 9) (1000 # 6);
            ChangeMaxX 10; ChangeMaxY 10; KeyDown "Space"].

(** The same, recording started at clock reading 1000. *)
Definition recordingImage : State :=
  step countingDownImage (CountdownElapsed 1000).

(** The pointer held at the centre of the canvas for one tick. *)
Definition recordedOne : State :=
  run recordingImage [MouseMove 50 50; IntervalTick rect100 1017 1017].

(** The pointer seen at the bottom-left corner of the canvas, then one
    tick. *)
Definition sampledBottomLeft : State :=
  run recordingImage [MouseMove 0 100; IntervalTick rect100 1017 1017].

(** The same with the pointer at the top-right corner. *)
Definition sampledTopRight : State :=
  run recordingImage [MouseMove 100 0; IntervalTick rect100 1017 1017].

(** One recording session: the pointer rests at the centre, moves to
    the corner, and three ticks sample it. *)
Definition sessionEvents : list Event :=
  [MouseMove 50 50; IntervalTick rect100 1017 1017;
   IntervalTick rect100 1033 1034; MouseMove 100 0;
   IntervalTick rect100 1050 1050].

(** ** Further vocabulary *)

(** A file as the export writes it: named [walk_trace.csv], its lines
    the header and the rows of a sample sequence that is not empty. *)
Definition wellFormedFile (f : SavedFile) : Prop :=
  fst f = "walk_trace.csv"%string
  /\ exists d, d <> [] /\ splitLines (snd f) = csvHeader :: map csvRow d.

(** The position carried by the last [mousemove] of a list of events. *)
Fixpoint lastMouseMove (evs : list Event) : option XY.t :=
  match evs with
  | [] => None
  | e :: rest =>
      match lastMouseMove rest with
      | Some p => Some p
      | None =>
          match e with
          | MouseMove cx cy => Some (XY.mk cx cy)
          | _ => None
          end
      end
  end.

(** Nothing has been sampled, drawn, timed or saved. *)
Definition untouched (s : State) : Prop :=
  recording s = false /\ data s = [] /\ lastPointRef s = None
  /\ strokes s = [] /\ saved s = [] /\ elapsedTime s = 0.

(** The number of presses of the space key in a list of events. *)
Fixpoint countSpace (evs : list Event) : nat :=
  match evs with
  | [] => O
  | KeyDown code :: rest =>
      if String.eqb code "Space" then S (countSpace rest) else countSpace rest
  | _ :: rest => countSpace rest
  end.

(** The segments of the polyline through the given points. *)
Fixpoint polyline (pts : list XY.t) : list Stroke :=
  match pts with
  | [] => []
  | p :: rest =>
      match rest with
      | [] => []
      | q :: _ => (p, q) :: polyline rest
      end
  end.

(** The last of the given points. *)
Fixpoint lastOf (pts : list XY.t) : option XY.t :=
  match pts with
  | [] => None
  | p :: rest =>
      match rest with
      | [] => Some p
      | _ :: _ => lastOf rest
      end
  end.

(** Events that neither end a recording nor redraw the canvas. *)
Definition traceEvent (e : Event) : bool :=
  match e with
  | KeyDown code => negb (String.eqb code "Space")
  | MouseMove _ _ | IntervalTick _ _ _ | ChangeMaxX _ | ChangeMaxY _ => true
  | _ => false
  end.

(** The segments on the canvas are the polyline through one point per
    sample, the last of which is the last accepted offset. *)
Definition traceInv (s : State) : Prop :=
  exists pts,
    strokes s = polyline pts
    /\ List.length pts = List.length (data s)
    /\ lastPointRef s = lastOf pts.

(** The number of occurrences of a character in a text. *)
Fixpoint countChar (c : ascii) (s : string) : nat :=
  match s with
  | EmptyString => O
  | String a rest => ((if Ascii.eqb a c then 1 else 0) + countChar c rest)%nat
  end.

(** The last clock reading taken once the handlers of all of [evs] have
    run. *)
Definition clockEnd (t : Q) (evs : list Event) : Q :=
  fold_left clockAfter evs t.

(** The paragraphs the component renders above the canvas: the hint,
    then the countdown notice while [waiting], then the elapsed time
    with two decimals while [recording]. *)
Definition statusLines (s : State) : list string :=
  ["スペースを押して計測開始"%string]
  ++ (if waiting s then ["3秒後に開始します..."%string] else [])
  ++ (if recording s
      then [("記録中: " ++ toFixed2 (elapsedTime s) ++ " 秒")%string]
      else []).

(** A countdown armed before any image was loaded cannot redraw the
    canvas when it elapses; if an image is shown by then, the canvas
    carries no segment already. *)
Definition staleCountdownInv (s : State) : Prop :=
  waiting s = true -> timeouts s = [None] -> image s <> None ->
  strokes s = [].

(** ** Rounded arithmetic *)

(** A binary64 operation returns its exact result rounded to a number
    that binary64 has.  In the statements about magnitudes, [fl] stands
    for that rounding and every arithmetic operation of the source is
    followed by it.  [accurate fl eps v] says that rounding the exact
    result [v] commits a relative error of at most [eps]; binary64
    rounds to nearest, so it is accurate with [eps = 2^-53] at every
    result that neither overflows nor underflows. *)
Definition accurate (fl : Q -> Q) (eps v : Q) : Prop :=
  Qabs (fl v - v) <= eps * Qabs v.

(** A scale factor of a surface whose size is known: [bound / size],
    rounded. *)
Definition scaleFl (fl : Q -> Q) (bound size : Q) : Q := fl (bound / size).

(** [x = rawX * scaleX], [y = (rect.height - rawY) * scaleY], each
    operation rounded. *)
Definition coordinateMapperFl (fl : Q -> Q) (rectHeight : Q) (raw : XY.t)
  (sx sy : Q) : XY.t :=
  XY.mk (fl (XY.x raw * sx)) (fl (fl (rectHeight - XY.y raw) * sy)).

(** The roundings made when [raw] is mapped on a surface [W] by [H]
    with bounds [mX] and [mY] are all accurate: the two divisions of
    the scale factors, the product for [x], the difference and the
    product for [y]. *)
Definition mappingAccurate (fl : Q -> Q) (eps W H mX mY : Q) (raw : XY.t)
  : Prop :=
  accurate fl eps (mX / W)
  /\ accurate fl eps (mY / H)
  /\ accurate fl eps (XY.x raw * scaleFl fl mX W)
  /\ accurate fl eps (H - XY.y raw)
  /\ accurate fl eps (fl (H - XY.y raw) * scaleFl fl mY H).

(** The relative error that [n] accurate roundings in a row can add up
    to, [(1 + eps)^n - 1], for two and for three roundings. *)
Definition relErr2 (eps : Q) : Q := eps * (2 + eps).
Definition relErr3 (eps : Q) : Q := eps * (3 + eps * (3 + eps)).

(** A rounding to use in examples: to the nearest millionth. *)
Definition roundMillionth (q : Q) : Q :=
  Qfloor (q * 1000000 + (1 # 2)) # 1000000.

(** [scale = Math.min(maxWidth / image.width, maxHeight / image.height)]
    of [updateCanvasSize], each division rounded; [maxWidth] and
    [maxHeight] are the numbers the two lines before it have
    computed. *)
Definition displayScaleFl (fl : Q -> Q) (maxWidth maxHeight iw ih : Q) : Q :=
  Math_min (fl (maxWidth / iw)) (fl (maxHeight / ih)).

(** [image.width * scale], the size given to the canvas, rounded. *)
Definition scaledFl (fl : Q -> Q) (size scale : Q) : Q := fl (size * scale).

(** The roundings made by [updateCanvasSize] are all accurate. *)
Definition fitAccurate (fl : Q -> Q) (eps maxWidth maxHeight iw ih : Q)
  : Prop :=
  accurate fl eps (maxWidth / iw)
  /\ accurate fl eps (maxHeight / ih)
  /\ accurate fl eps (iw * displayScaleFl fl maxWidth maxHeight iw ih)
  /\ accurate fl eps (ih * displayScaleFl fl maxWidth maxHeight iw ih).

(** [maxX / (image.width * canvasScale)] of [scaleX] and [scaleY], each
    operation rounded. *)
Definition scaleFactorFl (fl : Q -> Q) (bound size scale : Q) : Q :=
  fl (bound / fl (size * scale)).

(** The two roundings of a scale factor are accurate. *)
Definition scaleAccurate (fl : Q -> Q) (eps bound size scale : Q) : Prop :=
  accurate fl eps (size * scale)
  /\ accurate fl eps (bound / fl (size * scale)).

(** ** The export, whatever the numbers *)

(** [interface Point { time: number; x: number; y: number }] over any
    representation of numbers, the ones of binary64 that are not
    rationals included. *)
Module Row.
Record t (number : Type) : Type :=
  mk { time : number; x : number; y : number }.
Arguments mk {number} _ _ _.
Arguments time {number} _.
Arguments x {number} _.
Arguments y {number} _.
End Row.

(** The template literal [`${d.time},${d.x},${d.y}`], the conversion of
    a number to text being [toText]. *)
Definition csvRowOf {number : Type} (toText : number -> string)
  (d : Row.t number) : string :=
  (toText (Row.time d) ++ "," ++ toText (Row.x d) ++ ","
     ++ toText (Row.y d))%string.

(** [downloadCSV] over these samples. *)
Definition exportCSV {number : Type} (toText : number -> string)
  (d : list (Row.t number)) : option string :=
  match d with
  | [] => None
  | _ => Some (join newline (csvHeader :: map (csvRowOf toText) d))
  end.

(** The three texts a row is made of. *)
Definition fieldsOf {number : Type} (toText : number -> string)
  (d : Row.t number) : list string :=
  [toText (Row.time d); toText (Row.x d); toText (Row.y d)].

(** A sample of the component as such a row. *)
Definition rowOf (p : Point.t) : Row.t Q :=
  Row.mk (inject_Z (Point.time p)) (Point.x p) (Point.y p).

(** The text cut at every occurrence of a character. *)
Fixpoint splitOn (sep : ascii) (s : string) : list string :=
  match s with
  | EmptyString => [EmptyString]
  | String c rest =>
      if Ascii.eqb c sep then EmptyString :: splitOn sep rest
      else
        match splitOn sep rest with
        | [] => [String c EmptyString]
        | l :: ls => String c l :: ls
        end
  end.

(** The character is not the given one. *)
Definition isNot (sep c : ascii) : bool := negb (Ascii.eqb c sep).

(** The character is neither a comma nor a line break.  The texts the
    language writes for a number are made of such characters only:
    digits, a sign, a point, an exponent mark, [NaN], [Infinity]. *)
Definition plainChar (c : ascii) : bool := isNot "," c && notNewline c.

(** * Properties *)

(** ** The built-ins on examples *)

Example toString_5 : Number_toString 5 = "5"%string.
Proof. reflexivity. Qed.
Example toString_5_100 : Number_toString (500 # 100) = "5"%string.
Proof. reflexivity. Qed.
Example toString_neg : Number_toString (- 1234 # 100) = "-12.34"%string.
Proof. reflexivity. Qed.
Example toString_half : Number_toString (250 # 100) = "2.5"%string.
Proof. reflexivity. Qed.
Example toString_zero : Number_toString (0 # 100) = "0"%string.
Proof. reflexivity. Qed.
Example toString_1205 : Number_toString 1205 = "1205"%string.
Proof. reflexivity. Qed.
Example toFixed_5 : toFixed2 5 = "5.00"%string.
Proof. reflexivity. Qed.
Example toFixed_neg : toFixed2 (- 1234567 # 1000) = "-1234.57"%string.
Proof. reflexivity. Qed.
Example round2_a : parseFloat_toFixed2 (12345 # 1000) == 1235 # 100.
Proof. reflexivity. Qed.
Example round_a : Math_round (5 # 2) = 3%Z.
Proof. reflexivity. Qed.
Example round_b : Math_round (- 5 # 2) = (-2)%Z.
Proof. reflexivity. Qed.

Example recordingImage_scale :
  canvasScale recordingImage == 1 /\ scaleX recordingImage == 1 # 10
  /\ scaleY recordingImage == 1 # 10 /\ phase recordingImage = Recording.
Proof. vm_compute. repeat split. Qed.

Example centre_sample :
  let s := run recordingImage [MouseMove 50 50; IntervalTick rect100 1017 1017] in
  map csvRow (data s) = ["17,5,5"%string] /\ elapsedTime s == 17 # 1000.
Proof. vm_compute. repeat split. Qed.

(** ** Arithmetic of the built-ins *)

Lemma Math_round_le (a b : Q) : a <= b -> (Math_round a <= Math_round b)%Z.
Proof.
  intros Hab. unfold Math_round. apply Qfloor_resp_le. lra.
Qed.

Lemma Math_round_nonneg (a : Q) : 0 <= a -> (0 <= Math_round a)%Z.
Proof.
  intros Ha. change 0%Z with (Qfloor 0). unfold Math_round.
  apply Qfloor_resp_le. lra.
Qed.

Lemma truthy_iff (q : Q) : truthy q = true <-> ~ q == 0.
Proof.
  unfold truthy. rewrite negb_true_iff. split.
  - intros E H. apply Qeq_bool_iff in H. congruence.
  - intros H. destruct (Qeq_bool q 0) eqn:E; [|reflexivity].
    apply Qeq_bool_iff in E. contradiction.
Qed.

(** ** The containment test *)

Lemma insideRect_iff (m : XY.t) (rect : DOMRect.t) :
  insideRect m rect = true <->
  DOMRect.left rect <= XY.x m <= DOMRect.right rect
  /\ DOMRect.top rect <= XY.y m <= DOMRect.bottom rect.
Proof.
  unfold insideRect. rewrite !andb_true_iff, !Qle_bool_iff. tauto.
Qed.

Lemma outsideRect_not_inside (m : XY.t) (rect : DOMRect.t) :
  outsideRect m rect -> insideRect m rect = false.
Proof.
  intros Hout. destruct (insideRect m rect) eqn:E; [|reflexivity].
  apply insideRect_iff in E. destruct E as [[E1 E2] [E3 E4]].
  destruct Hout as [H|[H|[H|H]]]; lra.
Qed.

Lemma onEdge_inside (m : XY.t) (rect : DOMRect.t) :
  wellFormedRect rect -> onEdge m rect -> insideRect m rect = true.
Proof.
  intros [Hw Hh] Hedge. apply insideRect_iff. unfold onEdge in Hedge.
  destruct Hedge as [[[E|E] [H1 H2]]|[[E|E] [H1 H2]]]; lra.
Qed.

(** ** The interval callback, case by case *)

Lemma samplerStart_intro (s : State) (st : Q) :
  recording s = true -> startTime s = Some st -> ~ st == 0 ->
  samplerStart s = Some st.
Proof.
  intros Hr Hs Hz. unfold samplerStart. rewrite Hr, Hs.
  apply truthy_iff in Hz. now rewrite Hz.
Qed.

Lemma samplerStart_elim (s : State) (st : Q) :
  samplerStart s = Some st -> recording s = true /\ startTime s = Some st.
Proof.
  unfold samplerStart. destruct (recording s); [|discriminate].
  destruct (startTime s) as [t|]; [|discriminate].
  destruct (truthy t); [|discriminate]. intros [= ->]. auto.
Qed.

Section IntervalCallback.

Variable s : State.
Variable rect : DOMRect.t.
Variables now1 now2 : Q.

Lemma intervalTick_idle :
  samplerStart s = None -> intervalTick rect now1 now2 s = s.
Proof. intros H. unfold intervalTick. now rewrite H. Qed.

Lemma intervalTick_no_pointer :
  mousePositionRef s = None -> intervalTick rect now1 now2 s = s.
Proof.
  intros H. unfold intervalTick. rewrite H. now destruct (samplerStart s).
Qed.

Section PointerSeen.

Variable st : Q.
Variable m : XY.t.
Hypothesis Hstart : samplerStart s = Some st.
Hypothesis Hpointer : mousePositionRef s = Some m.

Lemma intervalTick_outside :
  insideRect m rect = false ->
  intervalTick rect now1 now2 s = setElapsedTime ((now2 - st) / 1000) s.
Proof.
  intros H. unfold intervalTick. now rewrite Hstart, Hpointer, H.
Qed.

Lemma intervalTick_inside :
  insideRect m rect = true ->
  intervalTick rect now1 now2 s
  = setElapsedTime ((now2 - st) / 1000) (sample st rect now1 m s).
Proof.
  intros H. unfold intervalTick. now rewrite Hstart, Hpointer, H.
Qed.

End PointerSeen.

Lemma sample_data (st : Q) (m : XY.t) :
  data (sample st rect now1 m s)
  = data s ++
    [Point.mk (Math_round (now1 - st))
       (parseFloat_toFixed2
          (XY.x (coordinateMapper (DOMRect.height rect) (rawOffset m rect)
                   (scaleX s) (scaleY s))))
       (parseFloat_toFixed2
          (XY.y (coordinateMapper (DOMRect.height rect) (rawOffset m rect)
                   (scaleX s) (scaleY s))))].
Proof. reflexivity. Qed.

(** A tick appends at most one sample, stamped with the rounded time
    since the start. *)
Lemma intervalTick_data :
  data (intervalTick rect now1 now2 s) = data s
  \/ exists st p, samplerStart s = Some st
       /\ data (intervalTick rect now1 now2 s) = data s ++ [p]
       /\ Point.time p = Math_round (now1 - st).
Proof.
  unfold intervalTick.
  destruct (samplerStart s) as [st|]; [|now left].
  destruct (mousePositionRef s) as [m|]; [|now left].
  destruct (insideRect m rect); [|now left].
  right. eexists st, _. split; [reflexivity|]. split.
  - cbn [data setElapsedTime]. apply sample_data.
  - reflexivity.
Qed.

End IntervalCallback.

(** ** The recording life cycle *)

Lemma lifecycleInv_frame (s s' : State) :
  waiting s' = waiting s -> recording s' = recording s ->
  timeouts s' = timeouts s -> lifecycleInv s -> lifecycleInv s'.
Proof.
  unfold lifecycleInv. intros -> -> ->. exact (fun H => H).
Qed.

Lemma lifecycleInv_step (s : State) (e : Event) :
  lifecycleInv s -> lifecycleInv (step s e).
Proof.
  intros Hinv. pose proof Hinv as [Hw Hn].
  destruct e as [code|now|cx cy|rect n1 n2|img w h|w h|v|v]; cbn [step];
    try (now apply (lifecycleInv_frame s)).
  - (* KeyDown *)
    unfold handleKeyDown. destruct (String.eqb code "Space"); [|exact Hinv].
    destruct (recording s) eqn:Hr, (waiting s) eqn:Hwt; cbn [negb andb].
    + destruct (Hw eq_refl) as [? _]. discriminate.
    + split; cbn; intros E; [congruence|now apply Hn].
    + exact Hinv.
    + split; cbn; intros E; [|discriminate]. split; [exact Hr|].
      rewrite (Hn eq_refl). now exists (image s).
  - (* CountdownElapsed *)
    destruct (timeouts s) as [|img rest] eqn:Ht; [exact Hinv|].
    destruct (waiting s) eqn:Hwt; [|now specialize (Hn eq_refl)].
    destruct (Hw eq_refl) as [_ [img' E]]. injection E as _ ->.
    destruct img; split; cbn; intros E; (discriminate || reflexivity).
  - (* IntervalTick *)
    apply (lifecycleInv_frame s); [| | |exact Hinv]; unfold intervalTick;
      destruct (samplerStart s); try reflexivity;
      destruct (mousePositionRef s) as [m|]; try reflexivity;
      destruct (insideRect m rect); try reflexivity;
      unfold sample; now destruct (lastPointRef s).
  - (* Resize *)
    apply (lifecycleInv_frame s); [| | |exact Hinv]; unfold updateCanvasSize;
      now destruct (image s).
Qed.

Lemma reachable_lifecycleInv (s : State) : reachable s -> lifecycleInv s.
Proof.
  induction 1 as [|s e _ IH].
  - split; [discriminate|reflexivity].
  - now apply lifecycleInv_step.
Qed.

Lemma run_reachable (s : State) (evs : list Event) :
  reachable s -> reachable (run s evs).
Proof.
  revert s. induction evs as [|e evs IH]; intros s Hs; [exact Hs|].
  cbn. apply IH. now constructor.
Qed.

Lemma countingDown_flags (s : State) :
  reachable s -> phase s = CountingDown ->
  waiting s = true /\ recording s = false /\ exists img, timeouts s = [img].
Proof.
  intros Hr Hp. unfold phase in Hp.
  destruct (waiting s) eqn:Hw.
  - destruct (reachable_lifecycleInv s Hr) as [H _].
    destruct (H Hw) as [? ?]. auto.
  - destruct (recording s); discriminate.
Qed.

(** No handler but the countdown callback shortens the sample
    sequence. *)
Lemma step_data_grows (s : State) (e : Event) :
  (forall now, e <> CountdownElapsed now) ->
  exists new, data (step s e) = data s ++ new.
Proof.
  intros Hne. destruct e as [code|now|cx cy|rect n1 n2|img w h|w h|v|v];
    cbn [step].
  - exists []. rewrite app_nil_r. unfold handleKeyDown.
    destruct (String.eqb code "Space"); [|reflexivity].
    destruct (negb (recording s) && negb (waiting s)); [reflexivity|].
    now destruct (recording s).
  - now destruct (Hne now).
  - exists []. now rewrite app_nil_r.
  - destruct (intervalTick_data s rect n1 n2) as [E|[st [p [_ [E _]]]]].
    + exists []. now rewrite app_nil_r.
    + now exists [p].
  - exists []. now rewrite app_nil_r.
  - exists []. rewrite app_nil_r. unfold updateCanvasSize.
    now destruct (image s).
  - exists []. now rewrite app_nil_r.
  - exists []. now rewrite app_nil_r.
Qed.

(** ** Coordinate mapper *)

(** C1.  For every raw offset [(rawX, rawY)], surface height and pair of
    scale factors, the mapper returns
    [(rawX * scaleX, (surfaceHeight - rawY) * scaleY)].  It is a total
    function of its arguments: nothing else is read or written, and no
    scale factor makes it fail.  A zero scale factor gives a zero
    coordinate, and negating a scale factor negates the coordinate.
    The sampler applies it to the pointer's offset from the top-left
    corner of the bounding rectangle, with the rectangle's height and
    the current scale factors, and stores the result rounded to two
    decimals. *)
Theorem coordinateMapper_spec (surfaceHeight rawX rawY sx sy : Q) :
  coordinateMapper surfaceHeight (XY.mk rawX rawY) sx sy
  = XY.mk (rawX * sx) ((surfaceHeight - rawY) * sy)
  /\ XY.x (coordinateMapper surfaceHeight (XY.mk rawX rawY) 0 sy) == 0
  /\ XY.y (coordinateMapper surfaceHeight (XY.mk rawX rawY) sx 0) == 0
  /\ XY.x (coordinateMapper surfaceHeight (XY.mk rawX rawY) (- sx) sy)
     == - XY.x (coordinateMapper surfaceHeight (XY.mk rawX rawY) sx sy)
  /\ XY.y (coordinateMapper surfaceHeight (XY.mk rawX rawY) sx (- sy))
     == - XY.y (coordinateMapper surfaceHeight (XY.mk rawX rawY) sx sy)
  /\ forall (s : State) (st now1 : Q) (rect : DOMRect.t) (m : XY.t),
       data (sample st rect now1 m s)
       = data s ++
         [Point.mk (Math_round (now1 - st))
            (parseFloat_toFixed2
               ((XY.x m - DOMRect.left rect) * scaleX s))
            (parseFloat_toFixed2
               ((DOMRect.height rect - (XY.y m - DOMRect.top rect))
                * scaleY s))].
Proof.
  unfold coordinateMapper; cbn [XY.x XY.y].
  split; [reflexivity|]. repeat split; try ring.
Qed.

(** ** Recording state machine *)

(** C3.  In every reachable state that is counting down, the space key
    changes nothing: the state after it is the state before it, so the
    phase is still [CountingDown], the samples are kept and the single
    pending countdown stays single.  No event at all takes a
    counting-down state to [Idle]. *)
Theorem toggle_ignored_while_counting_down (s : State) :
  reachable s -> phase s = CountingDown ->
  step s (KeyDown "Space") = s
  /\ (exists img, timeouts s = [img])
  /\ forall e, phase (step s e) <> Idle.
Proof.
  intros Hreach Hphase.
  destruct (countingDown_flags s Hreach Hphase) as [Hw [Hr [img Ht]]].
  split; [|split].
  - cbn. unfold handleKeyDown. cbn. now rewrite Hr, Hw.
  - now exists img.
  - intros e.
    assert (Hkeep : forall s', waiting s' = true -> phase s' <> Idle).
    { intros s' E. unfold phase. now rewrite E. }
    destruct e as [code|now|cx cy|rect n1 n2|im w h|w h|v|v]; cbn [step].
    + unfold handleKeyDown. destruct (String.eqb code "Space");
        [|now apply Hkeep]. rewrite Hr, Hw. cbn. now apply Hkeep.
    + rewrite Ht. unfold phase. now destruct img.
    + now apply Hkeep.
    + rewrite intervalTick_idle; [now apply Hkeep|].
      unfold samplerStart. now rewrite Hr.
    + now apply Hkeep.
    + apply Hkeep. unfold updateCanvasSize. now destruct (image s).
    + now apply Hkeep.
    + now apply Hkeep.
Qed.

Lemma toggle_ignored_while_counting_down_witness :
  phase countingDown0 = CountingDown
  /\ step countingDown0 (KeyDown "Space") = countingDown0
  /\ phase (step countingDown0 (CountdownElapsed 1000)) <> Idle.
Proof.
  assert (Hreach : reachable countingDown0)
    by (unfold countingDown0; apply reachable_step, reachable_init).
  destruct (toggle_ignored_while_counting_down countingDown0 Hreach eq_refl)
    as [Hsame [_ Hnot]].
  split; [reflexivity|]. split; [exact Hsame|apply Hnot].
Defined.

(** C9.  In every reachable state: pressing space while recording
    leaves the sample sequence as it is, hands it to the export and
    returns to [Idle]; no event other than the elapsing of the
    countdown removes a sample; and the elapsing of the countdown, in
    a counting-down state, empties the sequence, resets the
    last-point marker, stores the clock reading as start instant and
    enters [Recording]. *)
Theorem data_cleared_only_at_recording_start (s : State) (e : Event) :
  reachable s ->
  (phase s = Recording -> e = KeyDown "Space" ->
   data (step s e) = data s
   /\ saved (step s e) = saveAs (downloadCSV (data s)) (saved s)
   /\ phase (step s e) = Idle)
  /\ ((forall now, e <> CountdownElapsed now) ->
      exists new, data (step s e) = data s ++ new)
  /\ (forall now, phase s = CountingDown -> e = CountdownElapsed now ->
      data (step s e) = []
      /\ lastPointRef (step s e) = None
      /\ startTime (step s e) = Some now
      /\ phase (step s e) = Recording).
Proof.
  intros Hreach. split; [|split].
  - intros Hphase ->. unfold phase in Hphase.
    destruct (waiting s) eqn:Hw; [discriminate|].
    destruct (recording s) eqn:Hr; [|discriminate].
    cbn. unfold handleKeyDown, phase. cbn. rewrite Hr, Hw. cbn.
    rewrite Hw. auto.
  - apply step_data_grows.
  - intros now Hphase ->.
    destruct (countingDown_flags s Hreach Hphase) as [Hw [Hr [img Ht]]].
    cbn. rewrite Ht. unfold phase. now destruct img.
Qed.

Lemma data_cleared_only_at_recording_start_witness :
  phase recordedOne = Recording
  /\ data (step recordedOne (KeyDown "Space")) = data recordedOne
  /\ List.length (data recordedOne) = 1%nat
  /\ phase (step recordedOne (KeyDown "Space")) = Idle.
Proof.
  assert (Hreach : reachable recordedOne).
  { apply run_reachable, reachable_step, run_reachable, reachable_init. }
  destruct (data_cleared_only_at_recording_start recordedOne
              (KeyDown "Space") Hreach) as [Hstop _].
  destruct (Hstop eq_refl eq_refl) as [Hdata [_ Hidle]].
  split; [reflexivity|]. split; [exact Hdata|]. split; [reflexivity|].
  exact Hidle.
Defined.

(** ** Sampler loop *)

(** C4.  The interval callback returns at its first test when no
    pointer position was ever stored, before the line that updates the
    elapsed time: recording started at clock reading 1000, the tick
    at reading 2000 produces no sample and leaves the displayed time
    at 0 instead of 1 second. *)
Theorem tick_without_pointer_leaves_elapsed_time :
  phase recording0 = Recording
  /\ mousePositionRef recording0 = None
  /\ startTime recording0 = Some 1000
  /\ data (step recording0 (IntervalTick rect100 2000 2000)) = data recording0
  /\ elapsedTime (step recording0 (IntervalTick rect100 2000 2000)) == 0
  /\ ~ elapsedTime (step recording0 (IntervalTick rect100 2000 2000))
       == (2000 - 1000) / 1000.
Proof.
  repeat split. cbn [step]. rewrite intervalTick_no_pointer by reflexivity.
  cbn. intros H. discriminate H.
Qed.

(** C5.  On a tick during recording, with a pointer position stored
    that lies outside the bounding rectangle in some axis, the sample
    sequence and the last-offset marker are unchanged, and the elapsed
    time becomes [(now - startTime) / 1000]. *)
Theorem tick_outside_rect_only_updates_elapsed_time
  (s : State) (st : Q) (m : XY.t) (rect : DOMRect.t) (now1 now2 : Q) :
  recording s = true -> startTime s = Some st -> ~ st == 0 ->
  mousePositionRef s = Some m -> outsideRect m rect ->
  data (step s (IntervalTick rect now1 now2)) = data s
  /\ lastPointRef (step s (IntervalTick rect now1 now2)) = lastPointRef s
  /\ strokes (step s (IntervalTick rect now1 now2)) = strokes s
  /\ elapsedTime (step s (IntervalTick rect now1 now2)) = (now2 - st) / 1000.
Proof.
  intros Hr Hst Hnz Hm Hout. cbn [step].
  rewrite (intervalTick_outside s rect now1 now2 st m).
  - repeat split.
  - now apply samplerStart_intro.
  - exact Hm.
  - now apply outsideRect_not_inside.
Qed.

Lemma tick_outside_rect_only_updates_elapsed_time_witness :
  outsideRect (XY.mk 500 500) rect100
  /\ data (step recordingFarAway (IntervalTick rect100 2000 2001)) = []
  /\ elapsedTime (step recordingFarAway (IntervalTick rect100 2000 2001))
     = (2001 - 1000) / 1000.
Proof.
  assert (Hout : outsideRect (XY.mk 500 500) rect100)
    by (right; left; reflexivity).
  assert (Hnz : ~ 1000 == 0) by (intros H; discriminate H).
  destruct (tick_outside_rect_only_updates_elapsed_time recordingFarAway
              1000 (XY.mk 500 500) rect100 2000 2001
              eq_refl eq_refl Hnz eq_refl Hout) as [Hd [_ [_ He]]].
  split; [exact Hout|]. split; [exact Hd|exact He].
Defined.

(** C10.  On a tick during recording, a pointer position lying exactly
    on an edge of the bounding rectangle passes the containment test
    and a sample is appended for it. *)
Theorem edge_of_rect_is_inside
  (s : State) (st : Q) (m : XY.t) (rect : DOMRect.t) (now1 now2 : Q) :
  recording s = true -> startTime s = Some st -> ~ st == 0 ->
  mousePositionRef s = Some m -> wellFormedRect rect -> onEdge m rect ->
  insideRect m rect = true
  /\ exists p,
       data (step s (IntervalTick rect now1 now2)) = data s ++ [p]
       /\ Point.time p = Math_round (now1 - st).
Proof.
  intros Hr Hst Hnz Hm Hwf Hedge.
  pose proof (onEdge_inside m rect Hwf Hedge) as Hin.
  split; [exact Hin|]. cbn [step].
  rewrite (intervalTick_inside s rect now1 now2 st m
             ltac:(now apply samplerStart_intro) Hm Hin).
  eexists. split; [apply sample_data|reflexivity].
Qed.

Lemma edge_of_rect_is_inside_witness :
  onEdge (XY.mk 100 40) rect100
  /\ exists p,
       data (step recordingOnEdge (IntervalTick rect100 2000 2000)) = [p]
       /\ Point.time p = 1000%Z.
Proof.
  assert (Hedge : onEdge (XY.mk 100 40) rect100).
  { left. split; [right; reflexivity|]. split; intros H; discriminate H. }
  assert (Hwf : wellFormedRect rect100)
    by (split; intros H; discriminate H).
  assert (Hnz : ~ 1000 == 0) by (intros H; discriminate H).
  destruct (edge_of_rect_is_inside recordingOnEdge 1000 (XY.mk 100 40)
              rect100 2000 2000 eq_refl eq_refl Hnz eq_refl Hwf Hedge)
    as [_ [p [Hd Ht]]].
  split; [exact Hedge|]. exists p. split; [exact Hd|exact Ht].
Defined.

(** ** Export *)

(** C7.  When space is pressed while recording with an empty sample
    sequence, [downloadCSV] returns without building anything: no file
    is saved, the handler completes and the component is [Idle]. *)
Theorem export_of_empty_sequence_is_noop (s : State) :
  phase s = Recording -> data s = [] ->
  downloadCSV (data s) = None
  /\ saved (step s (KeyDown "Space")) = saved s
  /\ phase (step s (KeyDown "Space")) = Idle.
Proof.
  intros Hphase Hdata. unfold phase in Hphase.
  destruct (waiting s) eqn:Hw; [discriminate|].
  destruct (recording s) eqn:Hr; [|discriminate].
  rewrite Hdata. split; [reflexivity|].
  cbn. unfold handleKeyDown, phase. cbn. rewrite Hr, Hw, Hdata. cbn.
  now rewrite Hw.
Qed.

Lemma export_of_empty_sequence_is_noop_witness :
  data recording0 = []
  /\ saved (step recording0 (KeyDown "Space")) = []
  /\ phase (step recording0 (KeyDown "Space")) = Idle.
Proof.
  destruct (export_of_empty_sequence_is_noop recording0 eq_refl eq_refl)
    as [_ [Hs Hp]].
  split; [reflexivity|]. split; [exact Hs|exact Hp].
Defined.

(** ** One recording session *)

Lemma session_step (s : State) (st : Q) (e : Event) :
  sessionEvent e = true -> startTime s = Some st ->
  startTime (step s e) = Some st
  /\ (data (step s e) = data s
      \/ exists rect now1 now2 p,
           e = IntervalTick rect now1 now2
           /\ data (step s e) = data s ++ [p]
           /\ Point.time p = Math_round (now1 - st)).
Proof.
  intros He Hst.
  destruct e as [code|now|cx cy|rect n1 n2|img w h|w h|v|v];
    try discriminate He; cbn [step]; try (split; [exact Hst|now left]).
  - cbn in He. apply negb_true_iff in He. unfold handleKeyDown.
    rewrite He. split; [exact Hst|now left].
  - split.
    + unfold intervalTick. destruct (samplerStart s); [|exact Hst].
      destruct (mousePositionRef s) as [m|]; [|exact Hst].
      destruct (insideRect m rect); [|exact Hst].
      unfold sample. now destruct (lastPointRef s).
    + destruct (intervalTick_data s rect n1 n2) as [E|[st' [p [Hs [E Ht]]]]];
        [now left|right].
      apply samplerStart_elim in Hs. destruct Hs as [_ Hs].
      rewrite Hst in Hs. injection Hs as <-.
      now exists rect, n1, n2, p.
  - unfold updateCanvasSize. destruct (image s); split; auto.
Qed.

Lemma stampedBy_later (st : Q) (e : Event) (evs : list Event) (p : Point.t) :
  stampedBy st evs p -> stampedBy st (e :: evs) p.
Proof.
  intros [rect [n1 [n2 [Hin H]]]]. exists rect, n1, n2.
  split; [now right|exact H].
Qed.

Lemma clockMonotone_step (t : Q) (e : Event) (evs : list Event) :
  sessionEvent e = true -> clockMonotone t (e :: evs) ->
  t <= clockAfter t e /\ clockMonotone (clockAfter t e) evs
  /\ forall rect now1 now2,
       e = IntervalTick rect now1 now2 -> t <= now1 <= clockAfter t e.
Proof.
  intros He Hc.
  destruct e as [code|now|cx cy|rect n1 n2|img w h|w h|v|v];
    try discriminate He; cbn in *;
    try (split; [lra|split; [exact Hc|discriminate]]).
  destruct Hc as [H1 [H2 H3]]. split; [lra|]. split; [exact H3|].
  intros rect' a b [= _ <- <-]. lra.
Qed.

Lemma countTicks_cons (e : Event) (evs : list Event) :
  (countTicks evs <= countTicks (e :: evs))%nat.
Proof. destruct e; cbn; lia. Qed.

Lemma session_run (evs : list Event) :
  forall (s : State) (st t : Q),
    forallb sessionEvent evs = true -> clockMonotone t evs ->
    startTime s = Some st -> st <= t ->
    exists new,
      data (run s evs) = data s ++ new
      /\ StronglySorted Z.le (times new)
      /\ Forall (fun p => (Math_round (t - st) <= Point.time p)%Z
                          /\ stampedBy st evs p) new
      /\ (List.length new <= countTicks evs)%nat.
Proof.
  induction evs as [|e evs IH]; intros s st t Hev Hclock Hst Hle.
  - exists []. cbn. rewrite app_nil_r. repeat split; constructor.
  - cbn [forallb] in Hev. apply andb_true_iff in Hev. destruct Hev as [He Hev].
    destruct (session_step s st e He Hst) as [Hst' Hdata].
    destruct (clockMonotone_step t e evs He Hclock) as [Ht' [Hclock' Htick]].
    assert (Hle' : st <= clockAfter t e) by lra.
    destruct (IH (step s e) st (clockAfter t e) Hev Hclock' Hst' Hle')
      as [new [Hrun [Hsorted [Hall Hlen]]]].
    assert (Hmono : (Math_round (t - st) <= Math_round (clockAfter t e - st))%Z)
      by (apply Math_round_le; lra).
    change (run s (e :: evs)) with (run (step s e) evs).
    destruct Hdata as [Hsame|[rect [n1 [n2 [p [-> [Happ Htime]]]]]]].
    + exists new. rewrite Hrun, Hsame. split; [reflexivity|].
      split; [exact Hsorted|]. split.
      * eapply Forall_impl; [|exact Hall]. cbn beta. intros q [Hq Hs].
        split; [lia|now apply stampedBy_later].
      * pose proof (countTicks_cons e evs). lia.
    + destruct (Htick rect n1 n2 eq_refl) as [Hn1 Hn2].
      assert (Hp : (Point.time p
                    <= Math_round
                         (clockAfter t (IntervalTick rect n1 n2) - st))%Z)
        by (rewrite Htime; apply Math_round_le; lra).
      exists (p :: new). rewrite Hrun, Happ, <- app_assoc.
      split; [reflexivity|]. split; [|split].
      * cbn [times map]. constructor; [exact Hsorted|].
        unfold times. rewrite Forall_map.
        eapply Forall_impl; [|exact Hall]. cbn beta. intros q [Hq _]. lia.
      * constructor.
        -- split; [rewrite Htime; apply Math_round_le; lra|].
           exists rect, n1, n2. split; [now left|]. split; [lra|exact Htime].
        -- eapply Forall_impl; [|exact Hall]. cbn beta. intros q [Hq Hs].
           split; [lia|now apply stampedBy_later].
      * cbn. lia.
Qed.

(** C8.  A recording session starts when the countdown elapses at clock
    reading [now0] and goes on through pointer moves, ticks and other
    events that do not end it.  Whenever the clock readings do not go
    back, the samples of the session have non-decreasing times, every
    time is the rounded, nonnegative number of milliseconds between
    [now0] and the reading of one of the ticks, and there are no more
    samples than ticks. *)
Theorem session_samples_ordered (s0 : State) (now0 : Q) (evs : list Event) :
  reachable s0 -> phase s0 = CountingDown ->
  forallb sessionEvent evs = true -> clockMonotone now0 evs ->
  StronglySorted Z.le
    (times (data (run (step s0 (CountdownElapsed now0)) evs)))
  /\ Forall (fun p => (0 <= Point.time p)%Z /\ stampedBy now0 evs p)
       (data (run (step s0 (CountdownElapsed now0)) evs))
  /\ (List.length (data (run (step s0 (CountdownElapsed now0)) evs))
      <= countTicks evs)%nat.
Proof.
  intros Hreach Hphase Hev Hclock.
  destruct (countingDown_flags s0 Hreach Hphase) as [_ [_ [img Ht]]].
  assert (Hstart : startTime (step s0 (CountdownElapsed now0)) = Some now0
                   /\ data (step s0 (CountdownElapsed now0)) = []).
  { cbn. rewrite Ht. now destruct img. }
  destruct Hstart as [Hst Hd].
  destruct (session_run evs _ now0 now0 Hev Hclock Hst (Qle_refl now0))
    as [new [Hrun [Hsorted [Hall Hlen]]]].
  rewrite Hrun, Hd. cbn [app]. split; [exact Hsorted|]. split; [|exact Hlen].
  eapply Forall_impl; [|exact Hall]. cbn beta. intros q [_ Hs].
  split; [|exact Hs].
  destruct Hs as [rect [n1 [n2 [_ [Hge ->]]]]].
  apply Math_round_nonneg. lra.
Qed.

Lemma session_samples_ordered_witness :
  clockMonotone 1000 sessionEvents
  /\ times (data (run recordingImage sessionEvents)) = [17; 33; 50]%Z
  /\ StronglySorted Z.le (times (data (run recordingImage sessionEvents)))
  /\ (List.length (data (run recordingImage sessionEvents)) <= 3)%nat.
Proof.
  assert (Hclock : clockMonotone 1000 sessionEvents).
  { cbn. repeat split; intros H; discriminate H. }
  assert (Hreach : reachable countingDownImage)
    by apply run_reachable, reachable_init.
  destruct (session_samples_ordered countingDownImage 1000 sessionEvents
              Hreach eq_refl
              eq_refl Hclock) as [Hsorted [_ Hlen]].
  split; [exact Hclock|]. split; [reflexivity|].
  split; [exact Hsorted|exact Hlen].
Defined.

(** ** Texts and numerals *)

Lemma allChars_app (p : ascii -> bool) (a b : string) :
  allChars p (a ++ b) = allChars p a && allChars p b.
Proof.
  induction a as [|c a IH]; cbn; [reflexivity|].
  now rewrite IH, andb_assoc.
Qed.

Lemma allChars_impl (p q : ascii -> bool) (a : string) :
  (forall c, p c = true -> q c = true) ->
  allChars p a = true -> allChars q a = true.
Proof.
  intros Hpq. induction a as [|c a IH]; cbn; [reflexivity|].
  rewrite !andb_true_iff. intros [H1 H2]. auto.
Qed.

Lemma digit_char_isDigit (d : Z) :
  (0 <= d <= 9)%Z -> isDigit (digit_char d) = true.
Proof.
  intros Hd.
  assert (E : In d [0; 1; 2; 3; 4; 5; 6; 7; 8; 9]%Z) by (cbn; lia).
  cbn in E. repeat (destruct E as [<-|E]; [reflexivity|]). contradiction.
Qed.

Lemma digits_fuel_isDigit (fuel : nat) :
  forall (n : Z) (acc : string),
    allChars isDigit acc = true ->
    allChars isDigit (digits_fuel fuel n acc) = true.
Proof.
  induction fuel as [|fuel IH]; intros n acc Hacc; cbn [digits_fuel];
    [exact Hacc|].
  assert (Hacc' : allChars isDigit (String (digit_char (n mod 10)) acc) = true).
  { cbn [allChars]. rewrite Hacc, andb_true_r.
    apply digit_char_isDigit. pose proof (Z.mod_pos_bound n 10). lia. }
  destruct (n / 10 =? 0)%Z; [exact Hacc'|now apply IH].
Qed.

Lemma digits_isDigit (n : Z) : allChars isDigit (digits n) = true.
Proof. unfold digits. now apply digits_fuel_isDigit. Qed.

Lemma frac_digits_isDigit (fuel : nat) :
  forall (r d : Z), (0 <= r < d)%Z ->
    allChars isDigit (frac_digits fuel r d) = true.
Proof.
  induction fuel as [|fuel IH]; intros r d Hr; cbn [frac_digits];
    [reflexivity|].
  destruct (r =? 0)%Z; [reflexivity|]. cbn [allChars].
  rewrite IH by (apply Z.mod_pos_bound; lia). rewrite andb_true_r.
  apply digit_char_isDigit. split.
  - apply Z.div_pos; lia.
  - assert (10 * r / d < 10)%Z by (apply Z.div_lt_upper_bound; lia). lia.
Qed.

Lemma isDigit_decimalChar (c : ascii) : isDigit c = true -> decimalChar c = true.
Proof. unfold decimalChar. now intros ->. Qed.

Lemma sign_decimalChar (b : bool) :
  allChars decimalChar (if b then "-" else "") = true.
Proof. now destruct b. Qed.

Lemma Integer_toString_decimal (n : Z) :
  allChars decimalChar (Integer_toString n) = true.
Proof.
  unfold Integer_toString. rewrite allChars_app, sign_decimalChar.
  apply (allChars_impl isDigit); [exact isDigit_decimalChar|].
  apply digits_isDigit.
Qed.

Lemma Number_toString_decimal (q : Q) :
  allChars decimalChar (Number_toString q) = true.
Proof.
  unfold Number_toString. rewrite allChars_app, sign_decimalChar. cbn [andb].
  assert (Hip : allChars decimalChar (digits (Z.abs (Qnum q) / Zpos (Qden q))) = true).
  { apply (allChars_impl isDigit); [exact isDigit_decimalChar|].
    apply digits_isDigit. }
  assert (Hfp : allChars decimalChar
                  (frac_digits 17 (Z.abs (Qnum q) mod Zpos (Qden q)) (Zpos (Qden q)))
                = true).
  { apply (allChars_impl isDigit); [exact isDigit_decimalChar|].
    apply frac_digits_isDigit. apply Z.mod_pos_bound. lia. }
  destruct (frac_digits 17 _ _) as [|c fp] eqn:E; [exact Hip|].
  now rewrite !allChars_app, Hip, Hfp.
Qed.

Lemma csvRow_rowChar (p : Point.t) : allChars rowChar (csvRow p) = true.
Proof.
  assert (Hd : forall a, allChars decimalChar a = true ->
                         allChars rowChar a = true).
  { intros a. apply allChars_impl. intros c Hc. unfold rowChar. now rewrite Hc. }
  unfold csvRow. rewrite !allChars_app.
  rewrite (Hd _ (Integer_toString_decimal _)).
  now rewrite !(Hd _ (Number_toString_decimal _)).
Qed.

Lemma rowChar_notNewline (c : ascii) : rowChar c = true -> notNewline c = true.
Proof.
  unfold notNewline. destruct (Ascii.eqb_spec c (ascii_of_nat 10)) as [->|];
    [discriminate|reflexivity].
Qed.

(** ** Lines of a text *)

Lemma splitLines_single (p : string) :
  allChars notNewline p = true -> splitLines p = [p].
Proof.
  induction p as [|c p IH]; cbn [splitLines allChars]; [reflexivity|].
  rewrite andb_true_iff. intros [Hc Hp]. unfold notNewline in Hc.
  apply negb_true_iff in Hc. rewrite Hc. now rewrite (IH Hp).
Qed.

Lemma splitLines_line (p rest : string) :
  allChars notNewline p = true ->
  splitLines (p ++ newline ++ rest) = p :: splitLines rest.
Proof.
  induction p as [|c p IH]; [reflexivity|].
  cbn [splitLines allChars append].
  rewrite andb_true_iff. intros [Hc Hp]. unfold notNewline in Hc.
  apply negb_true_iff in Hc. rewrite Hc. now rewrite (IH Hp).
Qed.

Lemma splitLines_join (parts : list string) :
  parts <> [] ->
  Forall (fun p => allChars notNewline p = true) parts ->
  splitLines (join newline parts) = parts.
Proof.
  induction parts as [|p parts IH]; intros Hne Hall; [contradiction|].
  inversion Hall as [|? ? Hp Hrest]; subst.
  destruct parts as [|p' parts].
  - cbn. now apply splitLines_single.
  - change (join newline (p :: p' :: parts))
      with (p ++ newline ++ join newline (p' :: parts))%string.
    rewrite splitLines_line by exact Hp.
    now rewrite IH.
Qed.

(** ** Rounded arithmetic *)

Lemma accurate_bounds (fl : Q -> Q) (eps v : Q) :
  0 <= v -> accurate fl eps v ->
  (1 - eps) * v <= fl v /\ fl v <= (1 + eps) * v.
Proof.
  intros Hv Hacc. unfold accurate in Hacc. rewrite (Qabs_pos v Hv) in Hacc.
  apply Qabs_Qle_condition in Hacc. destruct Hacc as [Hlo Hhi].
  split; nra.
Qed.

Lemma accurate_zero (fl : Q -> Q) (eps v : Q) :
  v == 0 -> accurate fl eps v -> fl v == 0.
Proof.
  intros Hv Hacc. unfold accurate in Hacc.
  assert (Hz : eps * Qabs v == 0) by (rewrite Hv; cbn; ring).
  rewrite Hz in Hacc. apply Qabs_Qle_condition in Hacc.
  destruct Hacc as [Hlo Hhi]. lra.
Qed.

Lemma accurate_exact (eps v : Q) : 0 <= eps -> accurate (fun q => q) eps v.
Proof.
  intros He. unfold accurate.
  setoid_replace (v - v) with 0 by ring. change (Qabs 0) with 0.
  apply Qmult_le_0_compat; [exact He|apply Qabs_nonneg].
Qed.

(** With no rounding at all, the rounded mapper is the mapper of the
    transition system. *)
Lemma coordinateMapperFl_exact (H : Q) (raw : XY.t) (sx sy : Q) :
  coordinateMapperFl (fun q => q) H raw sx sy = coordinateMapper H raw sx sy.
Proof. reflexivity. Qed.

Lemma within_bounds (tol a b : Q) :
  b - tol <= a -> a <= b + tol -> within tol a b.
Proof.
  intros Hlo Hhi. unfold within. apply Qabs_Qle_condition. split; lra.
Qed.

Lemma Qmult_le_mono (a b c d : Q) :
  0 <= a -> a <= b -> 0 <= c -> c <= d -> a * c <= b * d.
Proof. intros. nra. Qed.

(** A point of the surface, mapped with rounded operations: the
    coordinates are not negative, and they exceed what the exact
    formula gives by no more than the rounding can add. *)
Lemma mapped_point_rounded (fl : Q -> Q) (eps W H mX mY : Q) (raw : XY.t) :
  0 < W -> 0 < H -> 0 <= mX -> 0 <= mY -> 0 <= eps <= 1 ->
  0 <= XY.x raw <= W -> 0 <= XY.y raw <= H ->
  mappingAccurate fl eps W H mX mY raw ->
  (1 - eps) * (1 - eps) * (XY.x raw * (mX / W))
    <= XY.x (coordinateMapperFl fl H raw (scaleFl fl mX W) (scaleFl fl mY H))
  /\ XY.x (coordinateMapperFl fl H raw (scaleFl fl mX W) (scaleFl fl mY H))
     <= (1 + eps) * (1 + eps) * (XY.x raw * (mX / W))
  /\ (1 - eps) * (1 - eps) * (1 - eps) * ((H - XY.y raw) * (mY / H))
     <= XY.y (coordinateMapperFl fl H raw (scaleFl fl mX W) (scaleFl fl mY H))
  /\ XY.y (coordinateMapperFl fl H raw (scaleFl fl mX W) (scaleFl fl mY H))
     <= (1 + eps) * (1 + eps) * (1 + eps) * ((H - XY.y raw) * (mY / H)).
Proof.
  intros HW HH HmX HmY [He0 He1] [Hx0 Hx1] [Hy0 Hy1]
         [Hsx [Hsy [Hpx [Hd Hpy]]]].
  unfold coordinateMapperFl, scaleFl in *. cbn [XY.x XY.y].
  set (rx := XY.x raw) in *. set (ry := XY.y raw) in *.
  assert (Ha : 0 <= mX / W) by (apply Qle_shift_div_l; lra).
  assert (Hb : 0 <= mY / H) by (apply Qle_shift_div_l; lra).
  set (a := mX / W) in *. set (b := mY / H) in *.
  destruct (accurate_bounds fl eps a Ha Hsx) as [Hsx1 Hsx2].
  destruct (accurate_bounds fl eps b Hb Hsy) as [Hsy1 Hsy2].
  set (sx := fl a) in *. set (sy := fl b) in *.
  assert (Hsx0 : 0 <= sx) by nra.
  assert (Hsy0 : 0 <= sy) by nra.
  assert (Hp0 : 0 <= rx * sx) by nra.
  destruct (accurate_bounds fl eps (rx * sx) Hp0 Hpx) as [Hx2 Hx3].
  assert (Hd0 : 0 <= H - ry) by lra.
  destruct (accurate_bounds fl eps (H - ry) Hd0 Hd) as [Hd1 Hd2].
  set (t := fl (H - ry)) in *.
  assert (Ht0 : 0 <= t) by nra.
  assert (Hq0 : 0 <= t * sy) by nra.
  destruct (accurate_bounds fl eps (t * sy) Hq0 Hpy) as [Hy2 Hy3].
  assert (Hra : 0 <= rx * a) by nra.
  assert (Hrsx1 : (1 - eps) * (rx * a) <= rx * sx) by nra.
  assert (Hrsx2 : rx * sx <= (1 + eps) * (rx * a)) by nra.
  assert (Hdb : 0 <= (H - ry) * b) by nra.
  assert (Hts1 : (1 - eps) * (1 - eps) * ((H - ry) * b) <= t * sy).
  { pose proof (Qmult_le_mono ((1 - eps) * (H - ry)) t ((1 - eps) * b) sy
                  ltac:(nra) Hd1 ltac:(nra) Hsy1). lra. }
  assert (Hts2 : t * sy <= (1 + eps) * (1 + eps) * ((H - ry) * b)).
  { pose proof (Qmult_le_mono t ((1 + eps) * (H - ry)) sy ((1 + eps) * b)
                  Ht0 Hd2 Hsy0 Hsy2). lra. }
  repeat split; nra.
Qed.

(** C2, as the code has it.  On a surface [W] wide and [H] high, with
    bounds that are not negative and scale factors [maxX / W] and
    [maxY / H], the mapper sends the bottom-left corner
    [(rawX, rawY) = (0, H)] to about [(0, 0)] and the top-right corner
    [(W, 0)] to about [(maxX, maxY)].  "About" is the tolerance of
    rounding: when every operation performed rounds with relative
    error at most [eps], the results are within [((1 + eps)^2 - 1) *
    maxX] and [((1 + eps)^3 - 1) * maxY] of these values. *)
Theorem corner_mapping (fl : Q -> Q) (eps W H mX mY : Q) :
  0 < W -> 0 < H -> 0 <= mX -> 0 <= mY -> 0 <= eps <= 1 ->
  mappingAccurate fl eps W H mX mY (bottomLeft W H) ->
  mappingAccurate fl eps W H mX mY (topRight W H) ->
  within (relErr2 eps * mX)
    (XY.x (coordinateMapperFl fl H (bottomLeft W H)
             (scaleFl fl mX W) (scaleFl fl mY H))) 0
  /\ within (relErr3 eps * mY)
       (XY.y (coordinateMapperFl fl H (bottomLeft W H)
                (scaleFl fl mX W) (scaleFl fl mY H))) 0
  /\ within (relErr2 eps * mX)
       (XY.x (coordinateMapperFl fl H (topRight W H)
                (scaleFl fl mX W) (scaleFl fl mY H))) mX
  /\ within (relErr3 eps * mY)
       (XY.y (coordinateMapperFl fl H (topRight W H)
                (scaleFl fl mX W) (scaleFl fl mY H))) mY.
Proof.
  intros HW HH HmX HmY He Hbl Htr.
  assert (Ea : W * (mX / W) == mX) by (field; lra).
  assert (Eb : H * (mY / H) == mY) by (field; lra).
  assert (HxW : 0 <= W <= W) by lra.
  assert (HyH : 0 <= H <= H) by lra.
  assert (Hx0 : 0 <= 0 <= W) by lra.
  assert (Hy0 : 0 <= 0 <= H) by lra.
  destruct (mapped_point_rounded fl eps W H mX mY (bottomLeft W H)
              HW HH HmX HmY He Hx0 HyH Hbl) as [B1 [B2 [B3 B4]]].
  destruct (mapped_point_rounded fl eps W H mX mY (topRight W H)
              HW HH HmX HmY He HxW Hy0 Htr) as [T1 [T2 [T3 T4]]].
  cbn [bottomLeft topRight XY.x XY.y] in B1, B2, B3, B4, T1, T2, T3, T4.
  destruct He as [He0 He1]. unfold relErr2, relErr3.
  set (a := mX / W) in *. set (b := mY / H) in *.
  repeat match goal with
         | |- _ /\ _ => split
         end; apply within_bounds; nra.
Qed.

Lemma corner_mapping_witness :
  within (relErr2 (1 # 1000) * 7)
    (XY.x (coordinateMapperFl roundMillionth 200 (topRight 300 200)
             (scaleFl roundMillionth 7 300) (scaleFl roundMillionth 10 200)))
    7
  /\ XY.x (coordinateMapperFl roundMillionth 200 (topRight 300 200)
             (scaleFl roundMillionth 7 300) (scaleFl roundMillionth 10 200))
     == 69999 # 10000.
Proof.
  assert (HW : 0 < 300) by reflexivity.
  assert (HH : 0 < 200) by reflexivity.
  assert (H7 : 0 <= 7) by (intros H; discriminate H).
  assert (H10 : 0 <= 10) by (intros H; discriminate H).
  assert (He : 0 <= 1 # 1000 <= 1) by (split; intros H; discriminate H).
  assert (Hbl : mappingAccurate roundMillionth (1 # 1000) 300 200 7 10
                  (bottomLeft 300 200)).
  { repeat split; vm_compute; intros H; discriminate H. }
  assert (Htr : mappingAccurate roundMillionth (1 # 1000) 300 200 7 10
                  (topRight 300 200)).
  { repeat split; vm_compute; intros H; discriminate H. }
  destruct (corner_mapping roundMillionth (1 # 1000) 300 200 7 10
              HW HH H7 H10 He Hbl Htr) as [_ [_ [Hx _]]].
  split; [exact Hx|reflexivity].
Defined.

(** C2, as the specification states it, fails: with a 100 by 100
    surface and bounds 10 by 10 the bottom-left corner is mapped to
    height 0, ten units away from [maxY], and the top-right corner to
    height 10, ten units away from 0; so are the samples recorded for
    them. *)
Lemma corner_mapping_counterexample :
  ~ near roundingTolerance
      (coordinateMapper 100 (bottomLeft 100 100) (10 / 100) (10 / 100)) 0 10
  /\ ~ near roundingTolerance
         (coordinateMapper 100 (topRight 100 100) (10 / 100) (10 / 100)) 10 0
  /\ (scaleX recordingImage == 10 / 100 /\ scaleY recordingImage == 10 / 100)
  /\ (exists p, data sampledBottomLeft = [p]
        /\ ~ within roundingTolerance (Point.y p) (maxY recordingImage))
  /\ (exists p, data sampledTopRight = [p]
        /\ ~ within roundingTolerance (Point.y p) 0).
Proof.
  split; [|split; [|split; [|split]]].
  - intros [_ H]. vm_compute in H. now apply H.
  - intros [_ H]. vm_compute in H. now apply H.
  - split; reflexivity.
  - eexists. split; [reflexivity|]. intros H. vm_compute in H. now apply H.
  - eexists. split; [reflexivity|]. intros H. vm_compute in H. now apply H.
Qed.

(** ** The exported text *)

Lemma splitOn_single (sep : ascii) (p : string) :
  allChars (isNot sep) p = true -> splitOn sep p = [p].
Proof.
  induction p as [|c p IH]; cbn [splitOn allChars]; [reflexivity|].
  rewrite andb_true_iff. intros [Hc Hp]. unfold isNot in Hc.
  apply negb_true_iff in Hc. rewrite Hc. now rewrite (IH Hp).
Qed.

Lemma splitOn_piece (sep : ascii) (p rest : string) :
  allChars (isNot sep) p = true ->
  splitOn sep (p ++ String sep rest) = p :: splitOn sep rest.
Proof.
  induction p as [|c p IH].
  - intros _. cbn [append splitOn]. now rewrite Ascii.eqb_refl.
  - cbn [splitOn allChars append].
    rewrite andb_true_iff. intros [Hc Hp]. unfold isNot in Hc.
    apply negb_true_iff in Hc. rewrite Hc. now rewrite (IH Hp).
Qed.

Lemma plainChar_isNot_comma (a : string) :
  allChars plainChar a = true -> allChars (isNot ",") a = true.
Proof.
  apply allChars_impl. intros c H. unfold plainChar in H.
  now apply andb_true_iff in H.
Qed.

Lemma plainChar_notNewline (a : string) :
  allChars plainChar a = true -> allChars notNewline a = true.
Proof.
  apply allChars_impl. intros c H. unfold plainChar in H.
  now apply andb_true_iff in H.
Qed.

Section ExportText.

Variable number : Type.
Variable toText : number -> string.
Hypothesis toText_plain : forall n, allChars plainChar (toText n) = true.

Lemma csvRowOf_fields (d : Row.t number) :
  splitOn "," (csvRowOf toText d) = fieldsOf toText d.
Proof.
  unfold csvRowOf, fieldsOf.
  change (toText (Row.time d) ++ "," ++ toText (Row.x d) ++ ","
            ++ toText (Row.y d))%string
    with (toText (Row.time d)
            ++ String "," (toText (Row.x d)
                             ++ String "," (toText (Row.y d))))%string.
  rewrite splitOn_piece by apply plainChar_isNot_comma, toText_plain.
  rewrite splitOn_piece by apply plainChar_isNot_comma, toText_plain.
  now rewrite splitOn_single by apply plainChar_isNot_comma, toText_plain.
Qed.

Lemma csvRowOf_notNewline (d : Row.t number) :
  allChars notNewline (csvRowOf toText d) = true.
Proof.
  unfold csvRowOf. rewrite !allChars_app.
  rewrite !(plainChar_notNewline _ (toText_plain _)). reflexivity.
Qed.

Lemma exportCSV_lines (d : list (Row.t number)) :
  splitLines (join newline (csvHeader :: map (csvRowOf toText) d))
  = csvHeader :: map (csvRowOf toText) d.
Proof.
  apply splitLines_join; [discriminate|]. constructor; [reflexivity|].
  rewrite Forall_map. apply Forall_forall. intros r _.
  apply csvRowOf_notNewline.
Qed.

End ExportText.

Lemma Number_toString_integer (n : Z) :
  Number_toString (inject_Z n) = Integer_toString n.
Proof.
  unfold Number_toString, Integer_toString. cbn [Qnum Qden inject_Z].
  rewrite Z.mod_1_r, Z.div_1_r. reflexivity.
Qed.

Lemma csvRow_rowOf (p : Point.t) :
  csvRowOf Number_toString (rowOf p) = csvRow p.
Proof.
  unfold csvRowOf, csvRow, rowOf. cbn [Row.time Row.x Row.y].
  now rewrite Number_toString_integer.
Qed.

(** The export of the component is the export of its samples as rows,
    written with the conversion of the model. *)
Lemma downloadCSV_exportCSV (d : list Point.t) :
  downloadCSV d = exportCSV Number_toString (map rowOf d).
Proof.
  destruct d as [|p d]; [reflexivity|].
  unfold downloadCSV, exportCSV. cbn [map]. rewrite map_map, csvRow_rowOf.
  now rewrite (map_ext (fun q => csvRowOf Number_toString (rowOf q)) csvRow
                 csvRow_rowOf).
Qed.

Lemma Number_toString_plain (q : Q) :
  allChars plainChar (Number_toString q) = true.
Proof.
  apply (allChars_impl decimalChar); [|apply Number_toString_decimal].
  intros c Hc. unfold plainChar, isNot.
  rewrite (rowChar_notNewline c) by (unfold rowChar; now rewrite Hc).
  destruct (Ascii.eqb_spec c ",") as [->|]; [discriminate|reflexivity].
Qed.




(** * Further properties of the component *)

(** ** What each handler leaves alone *)

(** The interval callback writes [data], [lastPointRef], the canvas and
    [elapsedTime], and nothing else. *)
Lemma intervalTick_frame (s : State) (rect : DOMRect.t) (now1 now2 : Q) :
  let s' := intervalTick rect now1 now2 s in
  image s' = image s /\ maxX s' = maxX s /\ maxY s' = maxY s
  /\ recording s' = recording s /\ startTime s' = startTime s
  /\ waiting s' = waiting s /\ canvasScale s' = canvasScale s
  /\ mousePositionRef s' = mousePositionRef s
  /\ timeouts s' = timeouts s /\ saved s' = saved s.
Proof.
  unfold intervalTick.
  destruct (samplerStart s); [|now repeat split].
  destruct (mousePositionRef s) as [m|] eqn:Hm; [|now repeat split].
  destruct (insideRect m rect); [|now repeat split].
  unfold sample. destruct (lastPointRef s); now repeat split.
Qed.

(** [updateCanvasSize] writes [canvasScale] and the canvas, and nothing
    else. *)
Lemma updateCanvasSize_frame (s : State) (w h : Q) :
  let s' := updateCanvasSize w h s in
  image s' = image s /\ maxX s' = maxX s /\ maxY s' = maxY s
  /\ recording s' = recording s /\ data s' = data s
  /\ startTime s' = startTime s /\ elapsedTime s' = elapsedTime s
  /\ waiting s' = waiting s /\ lastPointRef s' = lastPointRef s
  /\ mousePositionRef s' = mousePositionRef s
  /\ timeouts s' = timeouts s /\ saved s' = saved s.
Proof.
  unfold updateCanvasSize.
  destruct (image s) eqn:E; cbn; repeat split; now rewrite ?E.
Qed.

Lemma phase_frame (s s' : State) :
  waiting s' = waiting s -> recording s' = recording s -> phase s' = phase s.
Proof. unfold phase. now intros -> ->. Qed.

Lemma space_code (code : string) :
  String.eqb code "Space" = true -> KeyDown code = KeyDown "Space".
Proof. intros H. apply String.eqb_eq in H. now subst. Qed.

(** ** The life cycle as a whole *)



(** ** Before the first recording *)

Lemma untouched_frame (s s' : State) :
  recording s' = recording s -> data s' = data s ->
  lastPointRef s' = lastPointRef s -> strokes s' = strokes s ->
  saved s' = saved s -> elapsedTime s' = elapsedTime s ->
  untouched s -> untouched s'.
Proof. unfold untouched. now intros -> -> -> -> -> ->. Qed.

Lemma startTime_stays (s : State) (e : Event) :
  startTime (step s e) = None -> startTime s = None.
Proof.
  destruct e as [code|now|cx cy|rect n1 n2|img w h|w h|v|v]; cbn [step];
    try (intros H; exact H).
  - unfold handleKeyDown. destruct (String.eqb code "Space"); [|auto].
    destruct (negb (recording s) && negb (waiting s)); [auto|].
    now destruct (recording s).
  - destruct (timeouts s) as [|img rest]; [auto|]. now destruct img.
  - now destruct (intervalTick_frame s rect n1 n2) as [_ [_ [_ [_ [-> _]]]]].
  - now destruct (updateCanvasSize_frame s w h)
      as [_ [_ [_ [_ [_ [-> _]]]]]].
Qed.

(** X2.  As long as no countdown has ever elapsed ([startTime] is still
    null), the component is not recording and nothing has been
    sampled, drawn, timed or saved: pointer moves, ticks, resizes,
    image loads and key presses before the first recording leave no
    trace. *)
Theorem nothing_happens_before_first_recording (s : State) :
  reachable s -> startTime s = None -> untouched s.
Proof.
  induction 1 as [|s e Hreach IH]; intros Hst; [now repeat split|].
  specialize (IH (startTime_stays s e Hst)).
  pose proof IH as [Hr [Hd [Hl [Hk [Hs He]]]]].
  destruct e as [code|now|cx cy|rect n1 n2|img w h|w h|v|v]; cbn [step];
    try exact IH.
  - unfold handleKeyDown. destruct (String.eqb code "Space"); [|exact IH].
    rewrite Hr. cbn [negb andb]. now destruct (waiting s).
  - cbn [step] in Hst. destruct (timeouts s) as [|img rest]; [exact IH|].
    now destruct img.
  - rewrite intervalTick_idle; [exact IH|]. unfold samplerStart.
    now rewrite Hr.
  - unfold imageLoaded, updateCanvasSize. cbn. now repeat split.
  - unfold updateCanvasSize. destruct (image s); [|exact IH].
    now repeat split.
Qed.

Lemma nothing_happens_before_first_recording_witness :
  untouched
    (run init [MouseMove 5 5; IntervalTick rect100 10 10; KeyDown "Space";
               KeyDown "Space"; Resize 800 600]).
Proof.
  apply nothing_happens_before_first_recording;
    [apply run_reachable, reachable_init|reflexivity].
Defined.

(** ** The pointer cell *)

Lemma mousePositionRef_frame (s : State) (e : Event) :
  mousePositionRef (step s e)
  = match e with
    | MouseMove cx cy => Some (XY.mk cx cy)
    | _ => mousePositionRef s
    end.
Proof.
  destruct e as [code|now|cx cy|rect n1 n2|img w h|w h|v|v]; cbn [step];
    try reflexivity.
  - unfold handleKeyDown. destruct (String.eqb code "Space"); [|reflexivity].
    destruct (negb (recording s) && negb (waiting s)); [reflexivity|].
    now destruct (recording s).
  - destruct (timeouts s) as [|img rest]; [reflexivity|]. now destruct img.
  - apply (intervalTick_frame s rect n1 n2).
  - apply (updateCanvasSize_frame s w h).
Qed.

(** X3.  The pointer cell is a last-write-wins slot written by
    [mousemove] alone: after any events it holds the position of the
    last [mousemove] among them, whatever the phase, and if there was
    none it holds what it held before.  No handler ever empties it. *)
Theorem pointer_cell_holds_last_move (s : State) (evs : list Event) :
  mousePositionRef (run s evs)
  = match lastMouseMove evs with
    | Some p => Some p
    | None => mousePositionRef s
    end.
Proof.
  revert s. induction evs as [|e evs IH]; intros s; [reflexivity|].
  change (run s (e :: evs)) with (run (step s e) evs).
  rewrite IH. cbn [lastMouseMove].
  destruct (lastMouseMove evs); [reflexivity|].
  rewrite mousePositionRef_frame. now destruct e.
Qed.

(** ** Files *)

Lemma downloadCSV_lines (d : list Point.t) (csv : string) :
  downloadCSV d = Some csv ->
  d <> [] /\ splitLines csv = csvHeader :: map csvRow d.
Proof.
  destruct d as [|p d]; [discriminate|]. intros H.
  replace csv with (join newline (csvHeader :: map csvRow (p :: d)))
    by (unfold downloadCSV in H; congruence).
  split; [discriminate|].
  apply splitLines_join; [discriminate|]. constructor; [reflexivity|].
  rewrite Forall_map. apply Forall_forall. intros q _.
  apply (allChars_impl rowChar); [exact rowChar_notNewline|].
  apply csvRow_rowChar.
Qed.

Lemma saved_step (s : State) (e : Event) :
  saved (step s e) = saved s
  \/ exists csv,
       e = KeyDown "Space" /\ downloadCSV (data s) = Some csv
       /\ saved (step s e) = saved s ++ [(fileName, csv)].
Proof.
  destruct e as [code|now|cx cy|rect n1 n2|img w h|w h|v|v]; cbn [step];
    try (now left).
  - unfold handleKeyDown.
    destruct (String.eqb code "Space") eqn:Hc; [|now left].
    destruct (negb (recording s) && negb (waiting s)); [now left|].
    destruct (recording s); [|now left]. cbn.
    destruct (downloadCSV (data s)) as [csv|] eqn:Hcsv; [|now left].
    right. exists csv. now rewrite (space_code code Hc).
  - left. destruct (timeouts s) as [|img rest]; [reflexivity|].
    now destruct img.
  - left. apply (intervalTick_frame s rect n1 n2).
  - left. apply (updateCanvasSize_frame s w h).
Qed.

Lemma countSpace_cons (e : Event) (evs : list Event) :
  (countSpace evs <= countSpace (e :: evs))%nat.
Proof.
  destruct e; cbn; try lia. destruct (String.eqb code "Space"); lia.
Qed.

(** X4.  Whatever happens, files are only ever added, at most one per
    press of the space key, and every file added is named
    [walk_trace.csv] and consists of the header line followed by at
    least one sample row: the component never saves an empty or
    header-only file, and never removes or rewrites one. *)
Theorem files_are_added_whole (s : State) (evs : list Event) :
  exists new,
    saved (run s evs) = saved s ++ new
    /\ (List.length new <= countSpace evs)%nat
    /\ Forall wellFormedFile new.
Proof.
  revert s. induction evs as [|e evs IH]; intros s.
  - exists []. cbn. rewrite app_nil_r. repeat split; constructor.
  - change (run s (e :: evs)) with (run (step s e) evs).
    destruct (IH (step s e)) as [new [Hrun [Hlen Hall]]].
    destruct (saved_step s e) as [Hsame|[csv [-> [Hcsv Hadd]]]].
    + exists new. rewrite Hrun, Hsame. split; [reflexivity|].
      split; [|exact Hall]. pose proof (countSpace_cons e evs). lia.
    + exists ((fileName, csv) :: new). rewrite Hrun, Hadd, <- app_assoc.
      split; [reflexivity|]. split; [cbn; lia|].
      constructor; [|exact Hall]. split; [reflexivity|].
      exists (data s). cbn [snd]. now apply downloadCSV_lines.
Qed.

(** ** Canvas geometry *)

Lemma Math_min_cases (a b : Q) :
  (a <= b /\ Math_min a b = a) \/ (b <= a /\ Math_min a b = b).
Proof.
  unfold Math_min. destruct (Qle_bool a b) eqn:E.
  - left. split; [now apply Qle_bool_iff|reflexivity].
  - right. split; [|reflexivity].
    destruct (Qlt_le_dec b a) as [H|H]; [now apply Qlt_le_weak|].
    apply Qle_bool_iff in H. congruence.
Qed.

(** In exact arithmetic the scale of the model is the rounded one. *)
Lemma canvasScale_updateCanvasSize (s : State) (img : Image.t) (w h : Q) :
  image s = Some img ->
  canvasScale (updateCanvasSize w h s)
  = displayScaleFl (fun q => q) (w * (9 # 10)) (h * (6 # 10))
      (Image.width img) (Image.height img).
Proof. intros E. unfold updateCanvasSize. now rewrite E. Qed.

(** X5.  With an image of positive size, [updateCanvasSize] picks a
    scale that is not negative and at which the image fits the box
    [maxWidth] by [maxHeight] it has computed from the window, touching
    one side of it, up to rounding: when every operation rounds with
    relative error at most [eps], the scaled width and height exceed
    the box by a factor of at most [(1 + eps)^2], and one of them
    reaches its side of the box up to a factor [(1 - eps)^2]. *)
Theorem canvas_fits_viewport
  (fl : Q -> Q) (eps maxWidth maxHeight iw ih : Q) :
  0 < iw -> 0 < ih -> 0 <= maxWidth -> 0 <= maxHeight -> 0 <= eps <= 1 ->
  fitAccurate fl eps maxWidth maxHeight iw ih ->
  0 <= displayScaleFl fl maxWidth maxHeight iw ih
  /\ scaledFl fl iw (displayScaleFl fl maxWidth maxHeight iw ih)
     <= (1 + relErr2 eps) * maxWidth
  /\ scaledFl fl ih (displayScaleFl fl maxWidth maxHeight iw ih)
     <= (1 + relErr2 eps) * maxHeight
  /\ ((1 - eps) * (1 - eps) * maxWidth
      <= scaledFl fl iw (displayScaleFl fl maxWidth maxHeight iw ih)
      \/ (1 - eps) * (1 - eps) * maxHeight
         <= scaledFl fl ih (displayScaleFl fl maxWidth maxHeight iw ih)).
Proof.
  intros Hiw Hih Ha Hb [He0 He1] [Hqa [Hqb [Hpa Hpb]]].
  unfold scaledFl, relErr2 in *.
  assert (Ea : iw * (maxWidth / iw) == maxWidth) by (field; lra).
  assert (Eb : ih * (maxHeight / ih) == maxHeight) by (field; lra).
  assert (Hu0 : 0 <= maxWidth / iw) by (apply Qle_shift_div_l; lra).
  assert (Hv0 : 0 <= maxHeight / ih) by (apply Qle_shift_div_l; lra).
  set (u := maxWidth / iw) in *. set (v := maxHeight / ih) in *.
  destruct (accurate_bounds fl eps u Hu0 Hqa) as [Hu1 Hu2].
  destruct (accurate_bounds fl eps v Hv0 Hqb) as [Hv1 Hv2].
  assert (Hfu : 0 <= fl u) by nra.
  assert (Hfv : 0 <= fl v) by nra.
  set (c := displayScaleFl fl maxWidth maxHeight iw ih) in *.
  assert (Hc : (fl u <= fl v /\ c = fl u) \/ (fl v <= fl u /\ c = fl v))
    by apply Math_min_cases.
  assert (Hc0 : 0 <= c) by (destruct Hc as [[_ ->]|[_ ->]]; assumption).
  assert (Hcu : c <= fl u) by (destruct Hc as [[H ->]|[H ->]]; lra).
  assert (Hcv : c <= fl v) by (destruct Hc as [[H ->]|[H ->]]; lra).
  assert (Hw0 : 0 <= iw * c) by nra.
  assert (Hh0 : 0 <= ih * c) by nra.
  destruct (accurate_bounds fl eps (iw * c) Hw0 Hpa) as [Hw1 Hw2].
  destruct (accurate_bounds fl eps (ih * c) Hh0 Hpb) as [Hh1 Hh2].
  assert (Hwc : iw * c <= (1 + eps) * maxWidth) by nra.
  assert (Hhc : ih * c <= (1 + eps) * maxHeight) by nra.
  split; [exact Hc0|]. split; [nra|]. split; [nra|].
  destruct Hc as [[_ Ec]|[_ Ec]].
  - left. assert (Hlow : (1 - eps) * maxWidth <= iw * c)
      by (rewrite Ec; nra). nra.
  - right. assert (Hlow : (1 - eps) * maxHeight <= ih * c)
      by (rewrite Ec; nra). nra.
Qed.

Lemma canvas_fits_viewport_witness :
  scaledFl roundMillionth 4490
    (displayScaleFl roundMillionth 1872 (7812 # 10) 4490 4989)
  <= (1 + relErr2 (1 # 1000)) * 1872
  /\ displayScaleFl roundMillionth 1872 (7812 # 10) 4490 4989
     == 156584 # 1000000.
Proof.
  assert (H1 : 0 < 4490) by reflexivity.
  assert (H2 : 0 < 4989) by reflexivity.
  assert (H3 : 0 <= 1872) by (intros H; discriminate H).
  assert (H4 : 0 <= 7812 # 10) by (intros H; discriminate H).
  assert (He : 0 <= 1 # 1000 <= 1) by (split; intros H; discriminate H).
  assert (Hacc : fitAccurate roundMillionth (1 # 1000) 1872 (7812 # 10)
                   4490 4989).
  { repeat split; vm_compute; intros H; discriminate H. }
  destruct (canvas_fits_viewport roundMillionth (1 # 1000) 1872 (7812 # 10)
              4490 4989 H1 H2 H3 H4 He Hacc) as [_ [Hw _]].
  split; [exact Hw|reflexivity].
Defined.

(** X6.  The geometry after a resize depends on the last window size
    alone: a resize undoes the effect of the one before it, so that
    recomputing twice for the same window gives the same scale and the
    same state as recomputing once. *)
Theorem last_resize_wins (s : State) (w h w' h' : Q) :
  updateCanvasSize w h (updateCanvasSize w' h' s) = updateCanvasSize w h s
  /\ updateCanvasSize w h (updateCanvasSize w h s) = updateCanvasSize w h s.
Proof.
  assert (H : forall a b,
             updateCanvasSize w h (updateCanvasSize a b s)
             = updateCanvasSize w h s).
  { intros a b. unfold updateCanvasSize.
    destruct (image s) as [img|] eqn:E; [|now rewrite E].
    cbn. now rewrite E. }
  split; apply H.
Qed.

(** With no rounding at all, the rounded scale factors are those of the
    transition system. *)
Lemma scaleFactorFl_exact (s : State) (img : Image.t) :
  image s = Some img ->
  scaleX s = scaleFactorFl (fun q => q) (maxX s) (Image.width img)
               (canvasScale s)
  /\ scaleY s = scaleFactorFl (fun q => q) (maxY s) (Image.height img)
                  (canvasScale s).
Proof. intros E. unfold scaleX, scaleY. now rewrite E. Qed.

(** X7.  Loading an image sets the logical bounds to the image's own
    width and height.  With these bounds and an image of positive size
    shown at a positive display scale, each scale factor is the inverse
    of the display scale up to rounding: when the two operations of
    the factor round with relative error at most [eps < 1], the
    product of scale factor and display scale lies between
    [(1 - eps) / (1 + eps)] and [(1 + eps) / (1 - eps)].  Until the
    bounds are edited, logical coordinates are pixels of the image at
    its natural size. *)
Theorem image_load_gives_pixel_coordinates
  (s : State) (img : Image.t) (w h : Q) (fl : Q -> Q) (eps scale : Q) :
  0 < Image.width img -> 0 < Image.height img -> 0 < scale ->
  0 <= eps < 1 ->
  scaleAccurate fl eps (Image.width img) (Image.width img) scale ->
  scaleAccurate fl eps (Image.height img) (Image.height img) scale ->
  maxX (imageLoaded img w h s) = Image.width img
  /\ maxY (imageLoaded img w h s) = Image.height img
  /\ 1 - eps
     <= scaleFactorFl fl (maxX (imageLoaded img w h s)) (Image.width img)
          scale * scale * (1 + eps)
  /\ scaleFactorFl fl (maxX (imageLoaded img w h s)) (Image.width img)
       scale * scale * (1 - eps) <= 1 + eps
  /\ 1 - eps
     <= scaleFactorFl fl (maxY (imageLoaded img w h s)) (Image.height img)
          scale * scale * (1 + eps)
  /\ scaleFactorFl fl (maxY (imageLoaded img w h s)) (Image.height img)
       scale * scale * (1 - eps) <= 1 + eps.
Proof.
  intros HW HH Hc [He0 He1] Hsx Hsy.
  assert (Hmx : maxX (imageLoaded img w h s) = Image.width img)
    by reflexivity.
  assert (Hmy : maxY (imageLoaded img w h s) = Image.height img)
    by reflexivity.
  rewrite Hmx, Hmy.
  assert (Hone : forall size,
             0 < size -> scaleAccurate fl eps size size scale ->
             1 - eps <= scaleFactorFl fl size size scale * scale * (1 + eps)
             /\ scaleFactorFl fl size size scale * scale * (1 - eps)
                <= 1 + eps).
  { intros size Hs [Hp Hq]. unfold scaleFactorFl.
    assert (Hp0 : 0 <= size * scale) by nra.
    destruct (accurate_bounds fl eps (size * scale) Hp0 Hp) as [Hp1 Hp2].
    set (p := fl (size * scale)) in *.
    assert (Hsc : 0 < size * scale) by nra.
    assert (Hppos : 0 < p) by nra.
    assert (Hq0 : 0 <= size / p) by (apply Qle_shift_div_l; lra).
    assert (Eq : size / p * p == size) by (field; lra).
    destruct (accurate_bounds fl eps (size / p) Hq0 Hq) as [Hq1 Hq2].
    set (q := size / p) in *. set (f := fl q) in *.
    assert (Hqc1 : 1 <= q * scale * (1 + eps)).
    { assert (size <= q * (1 + eps) * (size * scale)) by nra.
      assert (size * 1 <= size * (q * scale * (1 + eps))) by nra.
      apply (Qmult_le_l _ _ size); assumption. }
    assert (Hqc2 : q * scale * (1 - eps) <= 1).
    { assert (q * (1 - eps) * (size * scale) <= size) by nra.
      assert (size * (q * scale * (1 - eps)) <= size * 1) by nra.
      apply (Qmult_le_l _ _ size); assumption. }
    assert (Hup : 0 <= scale * (1 + eps)) by nra.
    assert (Hdn : 0 <= scale * (1 - eps)) by nra.
    split.
    - assert (A : (1 - eps) * q * (scale * (1 + eps))
                  <= f * (scale * (1 + eps)))
        by (apply Qmult_le_compat_r; assumption).
      assert (B : (1 - eps) * 1 <= (1 - eps) * (q * scale * (1 + eps)))
        by (apply (Qmult_le_mono (1 - eps) (1 - eps) 1); lra).
      lra.
    - assert (A : f * (scale * (1 - eps))
                  <= (1 + eps) * q * (scale * (1 - eps)))
        by (apply Qmult_le_compat_r; assumption).
      assert (Hqd : 0 <= q * scale * (1 - eps)) by nra.
      assert (B : (1 + eps) * (q * scale * (1 - eps)) <= (1 + eps) * 1)
        by (apply (Qmult_le_mono (1 + eps) (1 + eps)); lra).
      lra. }
  destruct (Hone (Image.width img) HW Hsx) as [Hx1 Hx2].
  destruct (Hone (Image.height img) HH Hsy) as [Hy1 Hy2].
  auto 10.
Qed.

Lemma image_load_gives_pixel_coordinates_witness :
  maxX (imageLoaded (Image.mk 1000 700) 1920 1080 init) = 1000
  /\ scaleFactorFl roundMillionth 1000 1000 (648 # 700) * (648 # 700)
       * (1 - (1 # 1000)) <= 1 + (1 # 1000).
Proof.
  assert (H1 : 0 < 1000) by reflexivity.
  assert (H2 : 0 < 700) by reflexivity.
  assert (Hc : 0 < 648 # 700) by reflexivity.
  assert (He : 0 <= 1 # 1000 < 1)
    by (split; [intros H; discriminate H|reflexivity]).
  assert (Hsx : scaleAccurate roundMillionth (1 # 1000) 1000 1000 (648 # 700)).
  { split; vm_compute; intros H; discriminate H. }
  assert (Hsy : scaleAccurate roundMillionth (1 # 1000) 700 700 (648 # 700)).
  { split; vm_compute; intros H; discriminate H. }
  destruct (image_load_gives_pixel_coordinates init (Image.mk 1000 700)
              1920 1080 roundMillionth (1 # 1000) (648 # 700)
              H1 H2 Hc He Hsx Hsy) as [Hm [_ [_ [Hx _]]]].
  split; [exact Hm|exact Hx].
Defined.

(** ** The trace on the canvas *)

Lemma lastPoint_follows_data (s : State) :
  reachable s -> (lastPointRef s = None <-> data s = []).
Proof.
  induction 1 as [|s e Hreach IH]; [now split|].
  destruct e as [code|now|cx cy|rect n1 n2|img w h|w h|v|v]; cbn [step];
    try exact IH.
  - unfold handleKeyDown. destruct (String.eqb code "Space"); [|exact IH].
    destruct (negb (recording s) && negb (waiting s)); [exact IH|].
    now destruct (recording s).
  - destruct (timeouts s) as [|img rest]; [exact IH|]. now destruct img.
  - unfold intervalTick. destruct (samplerStart s); [|exact IH].
    destruct (mousePositionRef s) as [m|]; [|exact IH].
    destruct (insideRect m rect); [|exact IH].
    unfold sample. destruct (lastPointRef s); cbn; split; try discriminate;
      intros H; now apply app_eq_nil in H.
  - destruct (updateCanvasSize_frame s w h)
      as [_ [_ [_ [_ [-> [_ [_ [_ [-> _]]]]]]]]]. exact IH.
Qed.

(** X8.  In every reachable state, a tick that accepts the pointer
    makes its offset the last accepted one; the first sample of a
    recording draws no segment, so no line is drawn from where an
    earlier recording ended, and every later sample draws exactly one
    segment, from the last accepted offset to the new one. *)
Theorem segments_join_consecutive_samples
  (s : State) (st : Q) (m : XY.t) (rect : DOMRect.t) (now1 now2 : Q) :
  reachable s ->
  recording s = true -> startTime s = Some st -> ~ st == 0 ->
  mousePositionRef s = Some m -> insideRect m rect = true ->
  lastPointRef (step s (IntervalTick rect now1 now2))
  = Some (rawOffset m rect)
  /\ (data s = [] ->
      strokes (step s (IntervalTick rect now1 now2)) = strokes s)
  /\ (data s <> [] ->
      exists last,
        lastPointRef s = Some last
        /\ strokes (step s (IntervalTick rect now1 now2))
           = strokes s ++ [(last, rawOffset m rect)]).
Proof.
  intros Hreach Hr Hst Hnz Hm Hin. cbn [step].
  rewrite (intervalTick_inside s rect now1 now2 st m
             ltac:(now apply samplerStart_intro) Hm Hin).
  pose proof (lastPoint_follows_data s Hreach) as [Hnone Hempty].
  unfold sample. destruct (lastPointRef s) as [last|] eqn:Hl; cbn.
  - split; [reflexivity|]. split.
    + intros Hd. specialize (Hempty Hd). discriminate.
    + intros _. now exists last.
  - split; [reflexivity|]. split; [reflexivity|].
    intros Hd. now specialize (Hnone eq_refl).
Qed.

Lemma segments_join_consecutive_samples_witness :
  data recordedOne <> []
  /\ strokes (step recordedOne (IntervalTick rect100 1033 1033))
     = [(XY.mk 50 50, XY.mk (50 - 0) (50 - 0))].
Proof.
  assert (Hreach : reachable recordedOne)
    by apply run_reachable, reachable_step, run_reachable, reachable_init.
  assert (Hnz : ~ 1000 == 0) by (intros H; discriminate H).
  assert (Hne : data recordedOne <> []) by discriminate.
  destruct (segments_join_consecutive_samples recordedOne 1000 (XY.mk 50 50)
              rect100 1033 1033 Hreach eq_refl eq_refl Hnz eq_refl eq_refl)
    as [_ [_ Hlater]].
  destruct (Hlater Hne) as [last [Hlast Hstrokes]].
  split; [exact Hne|]. rewrite Hstrokes.
  injection Hlast as <-. reflexivity.
Defined.

Lemma lastOf_none (pts : list XY.t) : lastOf pts = None -> pts = [].
Proof.
  induction pts as [|p pts IH]; [reflexivity|]. cbn.
  destruct pts as [|q pts]; [discriminate|]. intros H.
  specialize (IH H). discriminate.
Qed.

Lemma lastOf_snoc (pts : list XY.t) (q : XY.t) : lastOf (pts ++ [q]) = Some q.
Proof.
  induction pts as [|p pts IH]; [reflexivity|].
  cbn [app lastOf]. destruct (pts ++ [q]) as [|r rest] eqn:E.
  - now apply app_eq_nil in E.
  - exact IH.
Qed.

Lemma polyline_snoc (pts : list XY.t) (l q : XY.t) :
  lastOf pts = Some l -> polyline (pts ++ [q]) = polyline pts ++ [(l, q)].
Proof.
  induction pts as [|p pts IH]; [discriminate|].
  destruct pts as [|r pts].
  - cbn. now intros [= ->].
  - intros H. change (lastOf (r :: pts) = Some l) in H.
    change (polyline ((p :: r :: pts) ++ [q]))
      with ((p, r) :: polyline ((r :: pts) ++ [q])).
    now rewrite (IH H).
Qed.

Lemma traceInv_frame (s s' : State) :
  strokes s' = strokes s -> data s' = data s ->
  lastPointRef s' = lastPointRef s -> traceInv s -> traceInv s'.
Proof. unfold traceInv. now intros -> -> ->. Qed.

Lemma traceInv_step (s : State) (e : Event) :
  traceEvent e = true -> traceInv s -> traceInv (step s e).
Proof.
  intros He Hinv.
  destruct e as [code|now|cx cy|rect n1 n2|img w h|w h|v|v];
    try discriminate He; cbn [step]; try exact Hinv.
  - cbn in He. apply negb_true_iff in He. unfold handleKeyDown.
    now rewrite He.
  - unfold intervalTick. destruct (samplerStart s); [|exact Hinv].
    destruct (mousePositionRef s) as [m|]; [|exact Hinv].
    destruct (insideRect m rect); [|exact Hinv].
    destruct Hinv as [pts [Hs [Hlen Hlast]]].
    exists (pts ++ [rawOffset m rect]). unfold sample.
    destruct (lastPointRef s) as [last|] eqn:Hl; cbn.
    + rewrite (polyline_snoc pts last _ (eq_sym Hlast)), Hs.
      rewrite !length_app, Hlen, lastOf_snoc. auto.
    + rewrite (lastOf_none pts (eq_sym Hlast)) in *. cbn.
      rewrite length_app, <- Hlen. auto.
Qed.

(** X9.  From a state with no samples, no last offset and a clean
    canvas (a recording that has just started over an image), and as
    long as the canvas is not redrawn, the segments on the canvas are
    one connected polyline with one vertex per sample, ending at the
    last accepted offset: [n] samples have drawn [n - 1] segments. *)
Theorem trace_is_one_polyline (s : State) (evs : list Event) :
  data s = [] -> lastPointRef s = None -> strokes s = [] ->
  forallb traceEvent evs = true ->
  exists pts,
    strokes (run s evs) = polyline pts
    /\ List.length pts = List.length (data (run s evs))
    /\ lastPointRef (run s evs) = lastOf pts
    /\ S (List.length (strokes (run s evs)))
       = Nat.max 1 (List.length (data (run s evs))).
Proof.
  intros Hd Hl Hs Hev.
  assert (Hinv : traceInv s) by (exists []; rewrite Hd, Hl, Hs; auto).
  clear Hd Hl Hs. revert s Hinv Hev.
  induction evs as [|e evs IH]; intros s Hinv Hev.
  - destruct Hinv as [pts [Hs [Hlen Hlast]]]. exists pts.
    cbn [run fold_left]. repeat split; try assumption.
    rewrite Hs, <- Hlen. clear. induction pts as [|p [|q pts] IH];
      [reflexivity|reflexivity|].
    change (polyline (p :: q :: pts)) with ((p, q) :: polyline (q :: pts)).
    cbn [List.length] in *. lia.
  - cbn [forallb] in Hev. apply andb_true_iff in Hev. destruct Hev as [He Hev].
    change (run s (e :: evs)) with (run (step s e) evs).
    apply IH; [now apply traceInv_step|exact Hev].
Qed.

Lemma trace_is_one_polyline_witness :
  List.length (strokes (run recordingImage sessionEvents)) = 2%nat
  /\ exists pts,
       strokes (run recordingImage sessionEvents) = polyline pts
       /\ List.length pts = 3%nat.
Proof.
  destruct (trace_is_one_polyline recordingImage sessionEvents
              eq_refl eq_refl eq_refl eq_refl) as [pts [Hs [Hlen _]]].
  split; [reflexivity|]. exists pts. split; [exact Hs|exact Hlen].
Defined.

(** ** Columns of the exported text *)

Lemma countChar_app (c : ascii) (a b : string) :
  countChar c (a ++ b) = (countChar c a + countChar c b)%nat.
Proof.
  induction a as [|x a IH]; cbn [append countChar]; [reflexivity|].
  rewrite IH. lia.
Qed.

Lemma decimal_has_no_comma (a : string) :
  allChars decimalChar a = true -> countChar "," a = O.
Proof.
  induction a as [|x a IH]; cbn [allChars countChar]; [reflexivity|].
  rewrite andb_true_iff. intros [Hx Ha]. rewrite (IH Ha).
  destruct (Ascii.eqb_spec x ",") as [->|]; [discriminate|reflexivity].
Qed.

Lemma csvRow_commas (p : Point.t) : countChar "," (csvRow p) = 2%nat.
Proof.
  unfold csvRow. rewrite !countChar_app.
  rewrite (decimal_has_no_comma _ (Integer_toString_decimal _)).
  now rewrite !(decimal_has_no_comma _ (Number_toString_decimal _)).
Qed.

(** X10.  Every line of an exported text, the header included, has
    exactly two commas, hence three fields: no numeral the export
    writes contains a comma. *)
Theorem csv_lines_have_three_fields (d : list Point.t) (csv : string) :
  downloadCSV d = Some csv ->
  Forall (fun line => countChar "," line = 2%nat) (splitLines csv).
Proof.
  intros H. destruct (downloadCSV_lines d csv H) as [_ ->].
  constructor; [reflexivity|].
  rewrite Forall_map. apply Forall_forall. intros p _. apply csvRow_commas.
Qed.

Lemma csv_lines_have_three_fields_witness :
  Forall (fun line => countChar "," line = 2%nat)
    (splitLines (join newline ["time,x,y"; "17,5,5"]%string)).
Proof.
  apply (csv_lines_have_three_fields (data recordedOne)).
  vm_compute. reflexivity.
Defined.

(** ** The displayed time *)

Lemma Qdiv_1000 (a : Q) : a / 1000 == a * (1 # 1000).
Proof. reflexivity. Qed.

Lemma session_elapsedTime (s : State) (st : Q) (e : Event) :
  sessionEvent e = true -> startTime s = Some st ->
  elapsedTime (step s e) = elapsedTime s
  \/ exists rect now1 now2,
       e = IntervalTick rect now1 now2
       /\ elapsedTime (step s e) = (now2 - st) / 1000.
Proof.
  intros He Hst.
  destruct e as [code|now|cx cy|rect n1 n2|img w h|w h|v|v];
    try discriminate He; cbn [step]; try (now left).
  - cbn in He. apply negb_true_iff in He. unfold handleKeyDown.
    rewrite He. now left.
  - unfold intervalTick.
    destruct (samplerStart s) as [st'|] eqn:Hs; [|now left].
    apply samplerStart_elim in Hs. destruct Hs as [_ Hs].
    rewrite Hst in Hs. injection Hs as <-.
    destruct (mousePositionRef s) as [m|]; [|now left].
    right. exists rect, n1, n2. split; reflexivity.
  - left. apply (updateCanvasSize_frame s w h).
Qed.

Lemma clockMonotone_app (evs1 evs2 : list Event) :
  forall t, clockMonotone t (evs1 ++ evs2) ->
            clockMonotone t evs1 /\ clockMonotone (clockEnd t evs1) evs2.
Proof.
  induction evs1 as [|e evs1 IH]; intros t H; [now split|].
  destruct e; cbn in *;
    try (destruct H as [H1 H]); try (destruct H as [H2 H]);
    destruct (IH _ H) as [Ha Hb]; auto.
Qed.

Lemma elapsedTime_run (evs : list Event) :
  forall (s : State) (st t : Q),
    forallb sessionEvent evs = true -> clockMonotone t evs ->
    startTime s = Some st -> elapsedTime s <= (t - st) / 1000 ->
    startTime (run s evs) = Some st
    /\ elapsedTime s <= elapsedTime (run s evs)
    /\ elapsedTime (run s evs) <= (clockEnd t evs - st) / 1000.
Proof.
  induction evs as [|e evs IH]; intros s st t Hev Hclock Hst Hle.
  - cbn. split; [exact Hst|]. split; [apply Qle_refl|exact Hle].
  - cbn [forallb] in Hev. apply andb_true_iff in Hev. destruct Hev as [He Hev].
    destruct (session_step s st e He Hst) as [Hst' _].
    destruct (clockMonotone_step t e evs He Hclock) as [Ht' [Hclock' Htick]].
    change (run s (e :: evs)) with (run (step s e) evs).
    change (clockEnd t (e :: evs)) with (clockEnd (clockAfter t e) evs).
    assert (Hstep : elapsedTime s <= elapsedTime (step s e)
                    /\ elapsedTime (step s e) <= (clockAfter t e - st) / 1000).
    { rewrite !Qdiv_1000 in *.
      destruct (session_elapsedTime s st e He Hst)
        as [->|[rect [n1 [n2 [-> ->]]]]].
      - split; [apply Qle_refl|lra].
      - destruct (Htick rect n1 n2 eq_refl) as [Hn1 Hn2].
        cbn [clockAfter] in *. rewrite !Qdiv_1000. split; lra. }
    destruct Hstep as [Hup Hbound].
    destruct (IH (step s e) st (clockAfter t e) Hev Hclock' Hst' Hbound)
      as [Hs [Hgrow Hend]].
    split; [exact Hs|]. split; [|exact Hend].
    eapply Qle_trans; eassumption.
Qed.

(** X11.  The countdown's elapsing sets the displayed time to zero.
    Through the rest of the session, as long as the clock does not go
    back, the displayed time is never negative, never decreases from
    one event to a later one, and never runs ahead of the clock: it is
    at most the time since the start, in seconds. *)
Theorem elapsed_time_grows
  (s0 : State) (now0 : Q) (evs1 evs2 : list Event) :
  reachable s0 -> phase s0 = CountingDown ->
  forallb sessionEvent (evs1 ++ evs2) = true ->
  clockMonotone now0 (evs1 ++ evs2) ->
  elapsedTime (step s0 (CountdownElapsed now0)) = 0
  /\ 0 <= elapsedTime (run (step s0 (CountdownElapsed now0)) evs1)
  /\ elapsedTime (run (step s0 (CountdownElapsed now0)) evs1)
     <= elapsedTime (run (step s0 (CountdownElapsed now0)) (evs1 ++ evs2))
  /\ elapsedTime (run (step s0 (CountdownElapsed now0)) (evs1 ++ evs2))
     <= (clockEnd now0 (evs1 ++ evs2) - now0) / 1000.
Proof.
  intros Hreach Hphase Hev Hclock.
  destruct (countingDown_flags s0 Hreach Hphase) as [_ [_ [img Ht]]].
  assert (Hstart : startTime (step s0 (CountdownElapsed now0)) = Some now0
                   /\ elapsedTime (step s0 (CountdownElapsed now0)) = 0).
  { cbn. rewrite Ht. now destruct img. }
  destruct Hstart as [Hst He0]. split; [exact He0|].
  rewrite forallb_app in Hev. apply andb_true_iff in Hev.
  destruct Hev as [Hev1 Hev2].
  destruct (clockMonotone_app evs1 evs2 now0 Hclock) as [Hc1 Hc2].
  assert (Hzero : elapsedTime (step s0 (CountdownElapsed now0))
                  <= (now0 - now0) / 1000)
    by (rewrite He0, Qdiv_1000; lra).
  destruct (elapsedTime_run evs1 _ now0 now0 Hev1 Hc1 Hst Hzero)
    as [Hst1 [Hgrow1 Hend1]].
  destruct (elapsedTime_run evs2 _ now0 (clockEnd now0 evs1) Hev2 Hc2
              Hst1 Hend1) as [_ [Hgrow2 Hend2]].
  unfold run in *. rewrite fold_left_app. unfold clockEnd in *.
  rewrite fold_left_app. rewrite He0 in Hgrow1. auto.
Qed.

Lemma elapsed_time_grows_witness :
  elapsedTime (run recordingImage [MouseMove 50 50;
                                   IntervalTick rect100 1017 1017])
  <= elapsedTime (run recordingImage sessionEvents).
Proof.
  assert (Hclock : clockMonotone 1000 sessionEvents).
  { cbn. repeat split; intros H; discriminate H. }
  assert (Hreach : reachable countingDownImage)
    by apply run_reachable, reachable_init.
  destruct (elapsed_time_grows countingDownImage 1000
              [MouseMove 50 50; IntervalTick rect100 1017 1017]
              [IntervalTick rect100 1033 1034; MouseMove 100 0;
               IntervalTick rect100 1050 1050]
              Hreach eq_refl eq_refl Hclock) as [_ [_ [Hgrow _]]].
  exact Hgrow.
Defined.

(** ** Where a sample can lie *)

(** X13.  On a surface [W] wide and [H] high with bounds that are not
    negative and scale factors [maxX / W] and [maxY / H], a raw offset
    inside the surface ([0 <= rawX <= W], [0 <= rawY <= H]) is mapped
    to a point whose coordinates are never negative and exceed [maxX]
    and [maxY] by no more than rounding can add: when every operation
    rounds with relative error at most [eps], [x <= (1 + eps)^2 * maxX]
    and [y <= (1 + eps)^3 * maxY]. *)
Theorem mapped_point_within_bounds
  (fl : Q -> Q) (eps W H mX mY : Q) (raw : XY.t) :
  0 < W -> 0 < H -> 0 <= mX -> 0 <= mY -> 0 <= eps <= 1 ->
  0 <= XY.x raw <= W -> 0 <= XY.y raw <= H ->
  mappingAccurate fl eps W H mX mY raw ->
  0 <= XY.x (coordinateMapperFl fl H raw (scaleFl fl mX W) (scaleFl fl mY H))
  /\ XY.x (coordinateMapperFl fl H raw (scaleFl fl mX W) (scaleFl fl mY H))
     <= (1 + relErr2 eps) * mX
  /\ 0 <= XY.y (coordinateMapperFl fl H raw (scaleFl fl mX W)
                  (scaleFl fl mY H))
  /\ XY.y (coordinateMapperFl fl H raw (scaleFl fl mX W) (scaleFl fl mY H))
     <= (1 + relErr3 eps) * mY.
Proof.
  intros HW HH HmX HmY He Hx Hy Hacc.
  destruct (mapped_point_rounded fl eps W H mX mY raw
              HW HH HmX HmY He Hx Hy Hacc) as [X1 [X2 [Y1 Y2]]].
  assert (Ea : W * (mX / W) == mX) by (field; lra).
  assert (Eb : H * (mY / H) == mY) by (field; lra).
  assert (Ha : 0 <= mX / W) by (apply Qle_shift_div_l; lra).
  assert (Hb : 0 <= mY / H) by (apply Qle_shift_div_l; lra).
  destruct He as [He0 He1]. destruct Hx as [Hx0 Hx1]. destruct Hy as [Hy0 Hy1].
  unfold relErr2, relErr3.
  set (a := mX / W) in *. set (b := mY / H) in *.
  set (rx := XY.x raw) in *. set (ry := XY.y raw) in *.
  assert (Hra : 0 <= rx * a) by nra.
  assert (Hra' : rx * a <= mX) by nra.
  assert (Hdb : 0 <= (H - ry) * b) by nra.
  assert (Hdb' : (H - ry) * b <= mY) by nra.
  assert (Hm2 : 0 <= (1 - eps) * (1 - eps)) by nra.
  assert (Hm3 : 0 <= (1 - eps) * (1 - eps) * (1 - eps)) by nra.
  assert (Hp2 : 0 <= (1 + eps) * (1 + eps)) by nra.
  assert (Hp3 : 0 <= (1 + eps) * (1 + eps) * (1 + eps)) by nra.
  repeat match goal with
         | |- _ /\ _ => split
         end; nra.
Qed.

Lemma mapped_point_within_bounds_witness :
  XY.x (coordinateMapperFl roundMillionth 600 (XY.mk 100 20)
          (scaleFl roundMillionth 7 100) (scaleFl roundMillionth 10 600))
  <= (1 + relErr2 (1 # 1000)) * 7.
Proof.
  assert (HW : 0 < 100) by reflexivity.
  assert (HH : 0 < 600) by reflexivity.
  assert (H7 : 0 <= 7) by (intros H; discriminate H).
  assert (H10 : 0 <= 10) by (intros H; discriminate H).
  assert (He : 0 <= 1 # 1000 <= 1) by (split; intros H; discriminate H).
  assert (Hx : 0 <= XY.x (XY.mk 100 20) <= 100)
    by (split; intros H; discriminate H).
  assert (Hy : 0 <= XY.y (XY.mk 100 20) <= 600)
    by (split; intros H; discriminate H).
  assert (Hacc : mappingAccurate roundMillionth (1 # 1000) 100 600 7 10
                   (XY.mk 100 20)).
  { repeat split; vm_compute; intros H; discriminate H. }
  destruct (mapped_point_within_bounds roundMillionth (1 # 1000) 100 600 7 10
              (XY.mk 100 20) HW HH H7 H10 He Hx Hy Hacc) as [_ [Hb _]].
  exact Hb.
Defined.

(** ** A session from start to export *)

Lemma session_flags (s : State) (e : Event) :
  sessionEvent e = true ->
  recording (step s e) = recording s /\ waiting (step s e) = waiting s
  /\ saved (step s e) = saved s.
Proof.
  intros He.
  destruct e as [code|now|cx cy|rect n1 n2|img w h|w h|v|v];
    try discriminate He; cbn [step]; try (now repeat split).
  - cbn in He. apply negb_true_iff in He. unfold handleKeyDown.
    rewrite He. now repeat split.
  - destruct (intervalTick_frame s rect n1 n2)
      as [_ [_ [_ [Hr [_ [Hw [_ [_ [_ Hs]]]]]]]]]. auto.
  - destruct (updateCanvasSize_frame s w h)
      as [_ [_ [_ [Hr [_ [_ [_ [Hw [_ [_ [_ Hs]]]]]]]]]]]. auto.
Qed.

Lemma session_flags_run (evs : list Event) :
  forall s, forallb sessionEvent evs = true ->
    recording (run s evs) = recording s /\ waiting (run s evs) = waiting s
    /\ saved (run s evs) = saved s.
Proof.
  induction evs as [|e evs IH]; intros s Hev; [now repeat split|].
  cbn [forallb] in Hev. apply andb_true_iff in Hev. destruct Hev as [He Hev].
  change (run s (e :: evs)) with (run (step s e) evs).
  destruct (IH (step s e) Hev) as [-> [-> ->]]. now apply session_flags.
Qed.

(** X14.  A whole session: from a reachable counting-down state the
    countdown elapses, events that do not end the recording follow
    with a clock that does not go back, and space is pressed.  The
    text handed to [saveAs] is the export of the samples of this
    session alone, each stamped by one of its ticks; no file is saved
    before the key press; and the component is back to [Idle]. *)
Theorem export_holds_the_session_samples
  (s0 : State) (now0 : Q) (evs : list Event) :
  reachable s0 -> phase s0 = CountingDown ->
  forallb sessionEvent evs = true -> clockMonotone now0 evs ->
  phase (run (step s0 (CountdownElapsed now0)) evs) = Recording
  /\ saved (run (step s0 (CountdownElapsed now0)) evs) = saved s0
  /\ Forall (stampedBy now0 evs)
       (data (run (step s0 (CountdownElapsed now0)) evs))
  /\ saved (step (run (step s0 (CountdownElapsed now0)) evs)
              (KeyDown "Space"))
     = saveAs
         (downloadCSV (data (run (step s0 (CountdownElapsed now0)) evs)))
         (saved s0)
  /\ phase (step (run (step s0 (CountdownElapsed now0)) evs)
              (KeyDown "Space")) = Idle.
Proof.
  intros Hreach Hphase Hev Hclock.
  destruct (countingDown_flags s0 Hreach Hphase) as [_ [_ [img Ht]]].
  remember (step s0 (CountdownElapsed now0)) as s1 eqn:Es1.
  assert (Hstart : recording s1 = true /\ waiting s1 = false
                   /\ saved s1 = saved s0 /\ startTime s1 = Some now0
                   /\ data s1 = []).
  { rewrite Es1. cbn. rewrite Ht. now destruct img. }
  clear Es1. destruct Hstart as [Hr [Hw [Hs [Hst Hd]]]].
  destruct (session_flags_run evs s1 Hev) as [Hr' [Hw' Hs']].
  rewrite Hr in Hr'. rewrite Hw in Hw'. rewrite Hs in Hs'.
  destruct (session_run evs s1 now0 now0 Hev Hclock Hst (Qle_refl now0))
    as [new [Hrun [_ [Hall _]]]].
  rewrite Hd in Hrun. cbn [app] in Hrun.
  split; [unfold phase; now rewrite Hw', Hr'|]. split; [exact Hs'|].
  split.
  { rewrite Hrun. eapply Forall_impl; [|exact Hall]. now intros p [_ Hp]. }
  cbn [step]. unfold handleKeyDown, phase. cbn. rewrite Hr', Hw'. cbn.
  rewrite Hw', Hs'. auto.
Qed.

Lemma export_holds_the_session_samples_witness :
  saved (step (run recordingImage sessionEvents) (KeyDown "Space"))
  = saveAs (downloadCSV (data (run recordingImage sessionEvents))) []
  /\ phase (step (run recordingImage sessionEvents) (KeyDown "Space")) = Idle.
Proof.
  assert (Hclock : clockMonotone 1000 sessionEvents).
  { cbn. repeat split; intros H; discriminate H. }
  assert (Hreach : reachable countingDownImage)
    by apply run_reachable, reachable_init.
  destruct (export_holds_the_session_samples countingDownImage 1000
              sessionEvents Hreach eq_refl eq_refl Hclock)
    as [_ [_ [_ [Hsaved Hidle]]]].
  split; [exact Hsaved|exact Hidle].
Defined.

(** ** What is shown *)

(** X15.  In every reachable state the component shows the hint and at
    most one status paragraph, chosen by the phase: none when idle,
    the countdown notice while counting down, the elapsed time with
    two decimals while recording.  The two status paragraphs are never
    shown together. *)
Theorem status_follows_phase (s : State) :
  reachable s ->
  statusLines s
  = "スペースを押して計測開始"%string
    :: match phase s with
       | Idle => []
       | CountingDown => ["3秒後に開始します..."%string]
       | Recording =>
           [("記録中: " ++ toFixed2 (elapsedTime s) ++ " 秒")%string]
       end.
Proof.
  intros Hreach. pose proof (reachable_lifecycleInv s Hreach) as [Hw _].
  unfold statusLines, phase. destruct (waiting s).
  - destruct (Hw eq_refl) as [-> _]. reflexivity.
  - now destruct (recording s).
Qed.

Lemma status_follows_phase_witness :
  statusLines recordedOne
  = ["スペースを押して計測開始"; "記録中: 0.02 秒"]%string.
Proof.
  assert (Hreach : reachable recordedOne)
    by apply run_reachable, reachable_step, run_reachable, reachable_init.
  rewrite (status_follows_phase recordedOne Hreach). reflexivity.
Defined.

(** ** The canvas at the start of a recording *)

Lemma staleCountdownInv_reachable (s : State) :
  reachable s -> staleCountdownInv s.
Proof.
  induction 1 as [|s e Hreach IH]; [discriminate|].
  pose proof (reachable_lifecycleInv s Hreach) as [Hw Hn].
  destruct e as [code|now|cx cy|rect n1 n2|img w h|w h|v|v]; cbn [step];
    try exact IH.
  - unfold handleKeyDown. destruct (String.eqb code "Space"); [|exact IH].
    destruct (waiting s) eqn:Hwt.
    + destruct (Hw eq_refl) as [Hr _]. rewrite Hr. exact IH.
    + destruct (recording s); cbn [negb andb].
      * unfold staleCountdownInv. cbn. congruence.
      * unfold staleCountdownInv. cbn. rewrite (Hn eq_refl). cbn.
        intros _ [= Himg] Hne. now rewrite Himg in Hne.
  - destruct (timeouts s) as [|img rest]; [exact IH|].
    unfold staleCountdownInv. destruct img; cbn; discriminate.
  - unfold staleCountdownInv.
    destruct (intervalTick_frame s rect n1 n2)
      as [Hi [_ [_ [_ [_ [Hwt [_ [_ [Ht _]]]]]]]]].
    rewrite Hi, Hwt, Ht. intros Hwait Htime Himg.
    destruct (Hw Hwait) as [Hr _]. rewrite intervalTick_idle.
    + now apply IH.
    + unfold samplerStart. now rewrite Hr.
  - unfold staleCountdownInv. intros _ _ _. reflexivity.
  - unfold staleCountdownInv.
    destruct (updateCanvasSize_frame s w h)
      as [Hi [_ [_ [_ [_ [_ [_ [Hwt [_ [_ [Ht _]]]]]]]]]]].
    rewrite Hi, Hwt, Ht. intros Hwait Htime Himg.
    unfold updateCanvasSize. destruct (image s); [reflexivity|].
    now apply IH.
Qed.

(** X16.  When the countdown elapses in a reachable state that shows
    an image, the recording starts on a clean canvas, with no samples
    and no last offset, whether the image was loaded before the space
    key was pressed or during the countdown: the trace of an earlier
    recording is never carried over onto the image. *)
Theorem recording_starts_on_clean_canvas (s : State) (now : Q) :
  reachable s -> phase s = CountingDown -> image s <> None ->
  strokes (step s (CountdownElapsed now)) = []
  /\ data (step s (CountdownElapsed now)) = []
  /\ lastPointRef (step s (CountdownElapsed now)) = None.
Proof.
  intros Hreach Hphase Himg.
  destruct (countingDown_flags s Hreach Hphase) as [Hw [_ [img Ht]]].
  pose proof (staleCountdownInv_reachable s Hreach) as Hinv.
  cbn [step]. rewrite Ht. destruct img as [i|]; cbn.
  - auto.
  - split; [|auto]. now apply Hinv.
Qed.

Lemma recording_starts_on_clean_canvas_witness :
  strokes
    (step (run init [KeyDown "Space";
                     ImageLoaded (Image.mk 100 100) 1000 1000])
       (CountdownElapsed 1000)) = [].
Proof.
  assert (Hreach : reachable
            (run init [KeyDown "Space";
                       ImageLoaded (Image.mk 100 100) 1000 1000]))
    by apply run_reachable, reachable_init.
  assert (Himg : image (run init [KeyDown "Space";
                                  ImageLoaded (Image.mk 100 100) 1000 1000])
                 <> None) by discriminate.
  destruct (recording_starts_on_clean_canvas _ 1000 Hreach eq_refl Himg)
    as [Hs _].
  exact Hs.
Defined.
